(** * generate_trivial_contrast_cli.py: a shallow embedding

    The module [clinicadl/generate/artefacts/generate_trivial_contrast_cli.py]
    reads a subject/session list, applies torchio's [RandomGamma] to one image
    per row in a joblib worker pool, writes the corrupted images under
    [output_dir/subjects], then the manifest [data.tsv] and a
    missing-modalities report.

    The file system is modelled as the history of the events the program
    emits (directory creations and file writes); every read (the CAPS lookup,
    image loading, the list of subjects) is a function of that history.
    Third-party libraries (clinica, torchio, pandas reading, joblib's
    scheduling) are fields of an environment record [Env], so every theorem
    holds for every behaviour of them. *)

From Stdlib Require Import String Ascii List ZArith QArith Permutation Lia Bool.
Import ListNotations.
Open Scope nat_scope.
Open Scope string_scope.
Open Scope list_scope.

(** ** Python strings *)

(** [s.split(c)] for a one-character separator [c]. *)
Fixpoint split_on (c : ascii) (s : string) : list string :=
  match s with
  | EmptyString => [EmptyString]
  | String a rest =>
      let r := split_on c rest in
      if Ascii.eqb a c then EmptyString :: r
      else match r with
           | x :: xs => String a x :: xs
           | [] => [String a EmptyString]
           end
  end.

(** [sep.join(l)] *)
Definition join (sep : string) (l : list string) : string := String.concat sep l.

(** [c not in s] *)
Fixpoint not_in (c : ascii) (s : string) : bool :=
  match s with
  | EmptyString => true
  | String a rest => negb (Ascii.eqb a c) && not_in c rest
  end.

(** ** pathlib paths

    A [Path] is absolute or relative with a list of parts. [p / s] parses
    [s]: an absolute [s] replaces [p]; empty and ["."] parts are dropped;
    [".."] is kept as a part, as pathlib does. *)

Record Path := mkPath { absolute : bool; parts : list string }.

Definition path_parts (s : string) : list string :=
  filter (fun x => negb (String.eqb x "" || String.eqb x ".")) (split_on "/" s).

Definition starts_with_slash (s : string) : bool :=
  match s with
  | String a _ => Ascii.eqb a "/"
  | EmptyString => false
  end.

(** [Path(s)] *)
Definition Path_of_string (s : string) : Path :=
  mkPath (starts_with_slash s) (path_parts s).

(** [p / s] *)
Definition div (p : Path) (s : string) : Path :=
  if starts_with_slash s then Path_of_string s
  else mkPath (absolute p) (parts p ++ path_parts s).

(** [p.name] *)
Definition name (p : Path) : string := last (parts p) "".

(** [q] lies in the tree of [p]: same anchor, [p]'s parts extended by parts
    none of which climbs up with [".."] (symbolic links aside). *)
Definition under (p q : Path) : Prop :=
  absolute q = absolute p /\
  exists rest, parts q = parts p ++ rest /\ ~ In ".." rest.

(** The ancestors of [p] below its anchor, from the top: for [/a/b/c],
    [/a] and [/a/b]. *)
Definition ancestors (p : Path) : list Path :=
  map (fun k => mkPath (absolute p) (firstn k (parts p))) (seq 1 (length (parts p) - 1)).

(** The directories [p.mkdir(parents=True)] goes through, in order: the
    ancestors of [p], then [p]. *)
Definition dir_chain (p : Path) : list Path := ancestors p ++ [p].

(** ** Data *)

(** A row of the subject/session list read by [load_and_check_tsv]. *)
Record in_row := mk_in_row {
  participant_id : string;
  session_id : string;
  cohort : string
}.

(** A row of [output_df], columns [participant_id, session_id, diagnosis]. *)
Record out_row := mk_out_row {
  out_participant_id : string;
  out_session_id : string;
  out_diagnosis : string
}.

(** Values of the dictionary given to [commandline_to_json]. *)
Inductive jval :=
| JPath (p : Path)
| JStr (s : string).

(** What a write puts on disk. *)
Inductive file (Img : Type) :=
| JsonFile (d : list (string * jval))
| NiftiFile (i : Img)
| TsvFile (rows : list out_row)
| MissingModsFile (rows : list out_row).

Arguments JsonFile {Img} d.
Arguments NiftiFile {Img} i.
Arguments TsvFile {Img} rows.
Arguments MissingModsFile {Img} rows.

Inductive event (Img : Type) :=
| Mkdir (p : Path)
| Write (p : Path) (f : file Img).

Arguments Mkdir {Img} p.
Arguments Write {Img} p f.

Definition event_path {Img} (e : event Img) : Path :=
  match e with Mkdir p => p | Write p _ => p end.

(** The row a job appends for an input row (lines 98 and 119). *)
Definition contrast_row (r : in_row) (o : out_row) : Prop :=
  exists subject_id,
    nth_error (split_on "-" (participant_id r)) 1 = Some subject_id /\
    o = mk_out_row ("sub-CONT" ++ subject_id)%string (session_id r) "contrast".

(** An image written by a job. *)
Definition is_image_write {Img} (e : event Img) : bool :=
  match e with Write _ (NiftiFile _) => true | _ => false end.

(** Any file write. *)
Definition is_write {Img} (e : event Img) : bool :=
  match e with Write _ _ => true | Mkdir _ => false end.

(** A path component that names one entry: no separator, not [".."]. *)
Definition plain (s : string) : bool := not_in "/" s && negb (String.eqb s "..").

(** Python exceptions the run can raise; [LibError] stands for any exception
    of a third-party library (clinica, torchio, pandas). *)
Inductive exn :=
| NameError (v : string)
| IndexError
| KeyError (k : string)
| ValueError (msg : string)
| OSError (p : Path)
| LibError (code : nat).

Definition not_name_error (e : exn) : bool :=
  match e with NameError _ => false | _ => true end.

(** ** The effect monad: reads see the history, writes are appended *)

Definition M (Ev A : Type) : Type := list Ev -> (exn + A) * list Ev.

Definition ret {Ev A} (a : A) : M Ev A := fun _ => (inr a, []).

Definition bind {Ev A B} (m : M Ev A) (k : A -> M Ev B) : M Ev B :=
  fun h =>
    match m h with
    | (inl e, ev) => (inl e, ev)
    | (inr a, ev) =>
        match k a (h ++ ev) with
        | (r, ev2) => (r, ev ++ ev2)
        end
    end.

Definition raise {Ev A} (e : exn) : M Ev A := fun _ => (inl e, []).

(** A library call that reads the disk and may raise. *)
Definition lib_read {Ev A} (f : list Ev -> nat + A) : M Ev A :=
  fun h => match f h with
           | inl c => (inl (LibError c), [])
           | inr a => (inr a, [])
           end.

Definition lib {Ev A} (r : nat + A) : M Ev A := lib_read (fun _ => r).

Notation "x <- m ;; k" := (bind m (fun x => k))
  (at level 61, m at next level, right associativity).
Notation "m ;;; k" := (bind m (fun _ => k))
  (at level 61, right associativity).

(** [l[i]] *)
Definition getitem {Ev A} (l : list A) (i : nat) : M Ev A :=
  match nth_error l i with
  | Some x => ret x
  | None => raise IndexError
  end.

(** ** Environment: the third-party code *)

Record Env := {
  Img : Type;
  Rnd : Type;
  Transform : Type;
  FileType : Type;
  (** whether the OS accepts a mkdir / a write at a path *)
  io_ok : list (event Img) -> Path -> bool;
  (** [CapsDataset.create_caps_dict]: cohort name to CAPS directory *)
  create_caps_dict : Path -> bool -> nat + (string -> option Path);
  (** reading the subject/session list (pandas) *)
  read_subjects_sessions :
    list (event Img) -> option string -> (string -> option Path) -> nat + list in_row;
  (** [find_file_type] *)
  find_file_type : string -> bool -> string -> string -> nat + FileType;
  (** clinica's [clinica_file_reader]: (files, error message) *)
  clinica_file_reader :
    list (event Img) -> list string -> list string -> Path -> FileType ->
    nat + (list string * string);
  (** [tio.ScalarImage(path)] loaded from disk *)
  ScalarImage : list (event Img) -> Path -> nat + Img;
  (** [tio.RandomGamma(log_gamma=...)] *)
  RandomGamma : Q * Q -> nat + Transform;
  (** applying the transform, with its random draw *)
  apply_transform : Transform -> Rnd -> Img -> nat + Img;
  (** the random draw of the job with a given index *)
  rand : nat -> Rnd;
  (** the order in which joblib's pool with [n_jobs] workers runs [n] tasks *)
  pool_order : Z -> nat -> list nat;
  pool_order_perm : forall n_jobs n, Permutation (pool_order n_jobs n) (seq 0 n)
}.

Section Program.

Variable E : Env.

Abbreviation Ev := (event (Img E)).
Abbreviation MM := (M Ev).

(** [os.mkdir(q)] with [exist_ok=True]: [Mkdir q] records that [q] is a
    directory from then on (created now, or already there). *)
Definition mkdir1 (q : Path) : MM unit :=
  fun h => if io_ok E h q then (inr tt, [Mkdir q]) else (inl (OSError q), []).

Fixpoint mkdirs (qs : list Path) : MM unit :=
  match qs with
  | [] => ret tt
  | q :: rest => mkdir1 q ;;; mkdirs rest
  end.

(** [p.mkdir(parents=True, exist_ok=True)]: pathlib, on a missing parent,
    first runs [p.parent.mkdir(parents=True, exist_ok=True)], then creates
    [p]; so the ancestors of [p] are made directories from the top down,
    then [p] itself. The first refusal stops the chain. *)
Definition mkdir (p : Path) : MM unit := mkdirs (dir_chain p).

(** Writing a file at [p] ([save], [to_csv], [json.dump]). *)
Definition save (p : Path) (f : file (Img E)) : MM unit :=
  fun h => if io_ok E h p then (inr tt, [Write p f]) else (inl (OSError p), []).

(** Modelled from the spec: [commandline_to_json] of
    [clinicadl.utils.maps_manager.iotools] is not in this repository
    fragment; the spec says it "writes a JSON record of invocation parameters
    for provenance". It is modelled as creating the directory given under the
    key ["output_dir"] and writing the dictionary as [commandline.json]
    there. *)
Definition commandline_to_json (d : list (string * jval)) : MM unit :=
  match find (fun kv => String.eqb (fst kv) "output_dir") d with
  | Some (_, JPath out) =>
      mkdir out ;;; save (div out "commandline.json") (JsonFile d)
  | _ => raise (KeyError "output_dir")
  end.

(** Modelled from the spec: [load_and_check_tsv] of
    [clinicadl.generate.generate_utils] is not in this repository fragment;
    the spec describes it as reading the subject/session manifest (rows:
    participant_id, session_id, cohort). It is modelled as a read of that
    list, raising when it cannot be read, and writing nothing. *)
Definition load_and_check_tsv (tsv_path : option string)
    (caps_dict : string -> option Path) (output_dir : Path) : MM (list in_row) :=
  lib_read (fun h => read_subjects_sessions E h tsv_path caps_dict).

(** Modelled from the spec: [write_missing_mods] of
    [clinicadl.generate.generate_utils] is not in this repository fragment;
    the spec says the run writes a "missing modalities" report. It is
    modelled as one report file [missing_mods.tsv] in [output_dir] built
    from [output_df]. *)
Definition write_missing_mods (output_dir : Path) (output_df : list out_row) : MM unit :=
  save (div output_dir "missing_mods.tsv") (MissingModsFile output_df).

(** [caps_dict[cohort]] *)
Definition dict_get (d : string -> option Path) (k : string) : MM Path :=
  match d k with
  | Some v => ret v
  | None => raise (KeyError k)
  end.

(** [data_df.loc[data_idx, ...]] on the default integer index. *)
Definition loc (data_df : list in_row) (data_idx : nat) : MM in_row :=
  match nth_error data_df data_idx with
  | Some r => ret r
  | None => raise (KeyError "data_idx")
  end.

(** The inner function [create_contrast_image] (lines 85-123); it closes
    over [output_dir], [preprocessing], [gamma], [caps_dict], [data_df] and
    [file_type]. *)
Definition create_contrast_image (output_dir : Path) (preprocessing : string)
    (gamma : list Q) (caps_dict : string -> option Path) (data_df : list in_row)
    (file_type : FileType E) (data_idx : nat) (output_df : list out_row)
    : MM (list out_row) :=
  row <- loc data_df data_idx ;;
  let participant_id := participant_id row in
  let session_id := session_id row in
  let cohort := cohort row in
  caps_dir <- dict_get caps_dict cohort ;;
  found <- lib_read (fun h =>
             clinica_file_reader E h [participant_id] [session_id] caps_dir file_type) ;;
  image_file <- getitem (fst found) 0 ;;
  let image_path := Path_of_string image_file in
  let input_filename := name image_path in
  let filename_pattern := join "_" (skipn 2 (split_on "_" input_filename)) in
  subject_id <- getitem (split_on "-" participant_id) 1 ;;
  let contrast_image_nii_dir :=
    div (div (div (div output_dir "subjects") ("sub-CONT" ++ subject_id)%string)
             session_id) preprocessing in
  let contrast_image_nii_filename :=
    ("sub-CONT" ++ subject_id ++ "_" ++ session_id ++ "_" ++ filename_pattern)%string in
  mkdir contrast_image_nii_dir ;;;
  g0 <- getitem gamma 0 ;;
  g1 <- getitem gamma 1 ;;
  contrast <- lib (RandomGamma E (g0, g1)) ;;
  image <- lib_read (fun h => ScalarImage E h image_path) ;;
  contrast_image <- lib (apply_transform E contrast (rand E data_idx) image) ;;
  save (div contrast_image_nii_dir contrast_image_nii_filename)
       (NiftiFile contrast_image) ;;;
  let row := mk_out_row ("sub-CONT" ++ subject_id)%string session_id "contrast" in
  ret (output_df ++ [row]).

(** joblib: the pool runs the tasks in [pool_order]; each task is run once
    and its result is kept with its index. *)
Fixpoint run_tasks {A} (order : list nat) (tasks : list (MM A)) : MM (list (nat * A)) :=
  match order with
  | [] => ret []
  | k :: rest =>
      a <- nth k tasks (raise IndexError) ;;
      rs <- run_tasks rest tasks ;;
      ret ((k, a) :: rs)
  end.

Fixpoint lookup_result {A} (k : nat) (rs : list (nat * A)) : option A :=
  match rs with
  | [] => None
  | (j, a) :: rest => if Nat.eqb j k then Some a else lookup_result k rest
  end.

(** The results, in task order, as [Parallel(...)(...)] returns them. *)
Fixpoint collect {A} (ks : list nat) (rs : list (nat * A)) : MM (list A) :=
  match ks with
  | [] => ret []
  | k :: rest =>
      match lookup_result k rs with
      | Some a => r <- collect rest rs ;; ret (a :: r)
      | None => raise IndexError
      end
  end.

(** [Parallel(n_jobs=n_jobs)(tasks)] *)
Definition Parallel {A} (n_jobs : Z) (tasks : list (MM A)) : MM (list A) :=
  if Z.eqb n_jobs 0 then raise (ValueError "n_jobs == 0 in Parallel has no meaning")
  else
    rs <- run_tasks (pool_order E n_jobs (length tasks)) tasks ;;
    collect (seq 0 (length tasks)) rs.

(** Lines 61-83 of [generate_contrast_dataset]: provenance record, CAPS
    dictionary, subject list, [subjects] directory, file type. *)
Definition gcd_prefix (caps_directory output_dir : Path) (tsv_path : option string)
    (preprocessing : string) (multi_cohort uncropped_image : bool)
    (tracer suvr_reference_region : string)
    : MM ((string -> option Path) * list in_row * FileType E) :=
  commandline_to_json
    [("output_dir", JPath output_dir); ("caps_dir", JPath caps_directory);
     ("preprocessing", JStr preprocessing)] ;;;
  caps_dict <- lib (create_caps_dict E caps_directory multi_cohort) ;;
  data_df <- load_and_check_tsv tsv_path caps_dict output_dir ;;
  mkdir (div output_dir "subjects") ;;;
  file_type <- lib (find_file_type E preprocessing uncropped_image tracer
                      suvr_reference_region) ;;
  ret (caps_dict, data_df, file_type).

(** Lines 129-139: the results are concatenated with
    [output_df = pd.concat([result, output_df])], written to [data.tsv] and to
    the missing-modalities report; [logger] is not defined in the module, so
    the final [logger.info(...)] raises [NameError]. *)
Definition gcd_suffix (output_dir : Path) (results_df : list (list out_row)) : MM unit :=
  let output_df := fold_left (fun acc result => result ++ acc) results_df [] in
  save (div output_dir "data.tsv") (TsvFile output_df) ;;;
  write_missing_mods output_dir output_df ;;;
  raise (NameError "logger").

(** [generate_contrast_dataset] *)
Definition generate_contrast_dataset (caps_directory output_dir : Path) (n_proc : Z)
    (tsv_path : option string) (preprocessing : string)
    (multi_cohort uncropped_image : bool) (tracer suvr_reference_region : string)
    (gamma : list Q) : MM unit :=
  prefix <- gcd_prefix caps_directory output_dir tsv_path preprocessing multi_cohort
              uncropped_image tracer suvr_reference_region ;;
  let '(caps_dict, data_df, file_type) := prefix in
  let output_df := [] in
  results_df <- Parallel n_proc
                  (map (fun data_idx => create_contrast_image output_dir preprocessing
                                          gamma caps_dict data_df file_type data_idx
                                          output_df)
                       (seq 0 (length data_df))) ;;
  gcd_suffix output_dir results_df.

End Program.



(** ** A concrete environment, used to run the program on small inputs

    The image of a job is the [log_gamma] pair its transform was built with,
    so a written image shows which gamma range was used. *)

Definition caps0 : Path := Path_of_string "/data/caps".
Definition out0 : Path := Path_of_string "/data/out".

Definition test_reader (fail : bool) (_ : list (event (Q * Q))) (pids sids : list string)
    (_ : Path) (_ : unit) : nat + (list string * string) :=
  if fail then inl 1%nat
  else match pids, sids with
       | [pid], [sid] =>
           inr (["/data/caps/subjects/" ++ pid ++ "/" ++ sid ++ "/t1_linear/"
                 ++ pid ++ "_" ++ sid ++ "_T1w.nii.gz"]%string, "")
       | _, _ => inr ([], "")
       end.

Definition test_env (rows : list in_row) (fail : bool) : Env := {|
  Img := Q * Q;
  Rnd := unit;
  Transform := Q * Q;
  FileType := unit;
  io_ok := fun _ _ => true;
  create_caps_dict := fun caps _ => inr (fun _ => Some caps);
  read_subjects_sessions := fun _ _ _ => inr rows;
  find_file_type := fun _ _ _ _ => inr tt;
  clinica_file_reader := test_reader fail;
  ScalarImage := fun _ _ => inr (0%Q, 0%Q);
  RandomGamma := fun g => inr g;
  apply_transform := fun tr _ _ => inr tr;
  rand := fun _ => tt;
  pool_order := fun _ n => seq 0 n;
  pool_order_perm := fun _ n => Permutation_refl (seq 0 n)
|}.

(** A pool whose order depends on the worker count: one worker runs the
    jobs in index order, several run them from the last to the first. *)
Definition order_by_workers (n_jobs : Z) (n : nat) : list nat :=
  if Z.eqb n_jobs 1 then seq 0 n else rev (seq 0 n).

Definition order_by_workers_perm (n_jobs : Z) (n : nat) :
  Permutation (order_by_workers n_jobs n) (seq 0 n) :=
  match Z.eqb n_jobs 1 as b
        return Permutation (if b then seq 0 n else rev (seq 0 n)) (seq 0 n) with
  | true => Permutation_refl (seq 0 n)
  | false => Permutation_sym (Permutation_rev (seq 0 n))
  end.

Definition test_env_pool (rows : list in_row) : Env := {|
  Img := Q * Q;
  Rnd := unit;
  Transform := Q * Q;
  FileType := unit;
  io_ok := fun _ _ => true;
  create_caps_dict := fun caps _ => inr (fun _ => Some caps);
  read_subjects_sessions := fun _ _ _ => inr rows;
  find_file_type := fun _ _ _ _ => inr tt;
  clinica_file_reader := test_reader false;
  ScalarImage := fun _ _ => inr (0%Q, 0%Q);
  RandomGamma := fun g => inr g;
  apply_transform := fun tr _ _ => inr tr;
  rand := fun _ => tt;
  pool_order := order_by_workers;
  pool_order_perm := order_by_workers_perm
|}.


Definition rows2 : list in_row :=
  [mk_in_row "sub-01" "ses-M00" "single"; mk_in_row "sub-a-b" "ses-M06" "single"].

Definition run_test (rows : list in_row) (fail : bool) (n_proc : Z) (gamma : list Q) :=
  generate_contrast_dataset (test_env rows fail) caps0 out0 n_proc None "t1-linear"
    false false "fdg" "pons" gamma [].

Definition gamma0 : list Q := [(-2 # 10)%Q; (-5 # 100)%Q].

Definition prefix_test (rows : list in_row) (fail : bool) :=
  gcd_prefix (test_env rows fail) caps0 out0 None "t1-linear" false false "fdg" "pons" [].

(** The job of row [data_idx] of [rows2], run first on an empty disk. *)
Definition job_test (gamma : list Q) (data_idx : nat) :=
  create_contrast_image (test_env rows2 false) out0 "t1-linear" gamma (fun _ => Some caps0)
    rows2 tt data_idx [] [].

(** The manifest written for [rows2]. *)
Definition manifest2 : list out_row :=
  [mk_out_row "sub-CONTa" "ses-M06" "contrast"; mk_out_row "sub-CONT01" "ses-M00" "contrast"].

(** The image directory of row ["sub-a-b"] of [rows2]. *)
Definition image_dir_a (output_dir : Path) : Path :=
  div (div (div (div output_dir "subjects") "sub-CONTa") "ses-M06") "t1-linear".

(** The run of [rows2] with a pool order that depends on [n_proc]. *)
Definition run_pool (n_proc : Z) :=
  generate_contrast_dataset (test_env_pool rows2) caps0 out0 n_proc None "t1-linear"
    false false "fdg" "pons" gamma0 [].

(** A subject list whose session_id is an absolute path. *)
Definition rows_abs : list in_row := [mk_in_row "sub-01" "/elsewhere" "single"].

(** Two participants whose identifiers share their second hyphen-separated
    field. *)
Definition rows_dup : list in_row :=
  [mk_in_row "sub-01-a" "ses-M00" "single"; mk_in_row "sub-01-b" "ses-M00" "single"].

(** ** The naming rule as the spec words it

    The spec's reading of [<id>] in ["sub-CONT<id>_<session>_<suffix>"]: the
    part of [participant_id] after its first hyphen. *)
Fixpoint after_first_hyphen (s : string) : string :=
  match s with
  | EmptyString => EmptyString
  | String a rest => if Ascii.eqb a "-" then rest else after_first_hyphen rest
  end.

(** The file name the spec gives for the image of a row, from the input
    image's file name. *)
Definition claimed_contrast_filename (participant_id session_id input_filename : string)
    : string :=
  ("sub-CONT" ++ after_first_hyphen participant_id ++ "_" ++ session_id ++ "_"
   ++ join "_" (skipn 2 (split_on "_" input_filename)))%string.


(** * Properties *)

(** ** The monad *)

Lemma bind_inv {Ev A B} (m : M Ev A) (k : A -> M Ev B) h r ev :
  bind m k h = (r, ev) ->
  (exists e, m h = (inl e, ev) /\ r = inl e) \/
  (exists a ev1 ev2, m h = (inr a, ev1) /\ k a (h ++ ev1) = (r, ev2) /\ ev = ev1 ++ ev2).
Proof.
  unfold bind. destruct (m h) as [[e|a] ev1].
  - intros H; inversion H; subst; left; eauto.
  - destruct (k a (h ++ ev1)) as [r2 ev2] eqn:Hk. intros H; inversion H; subst.
    right; eauto 6.
Qed.

Lemma bind_inr {Ev A B} (m : M Ev A) (k : A -> M Ev B) h b ev :
  bind m k h = (inr b, ev) ->
  exists a ev1 ev2, m h = (inr a, ev1) /\ k a (h ++ ev1) = (inr b, ev2) /\ ev = ev1 ++ ev2.
Proof.
  intros H; apply bind_inv in H as [(e & _ & He)|H]; [discriminate|exact H].
Qed.

Lemma bind_of_inl {Ev A B} (m : M Ev A) (k : A -> M Ev B) h e ev :
  m h = (inl e, ev) -> bind m k h = (inl e, ev).
Proof. unfold bind; intros ->; reflexivity. Qed.

Lemma bind_of_inr {Ev A B} (m : M Ev A) (k : A -> M Ev B) h a ev1 r ev2 :
  m h = (inr a, ev1) -> k a (h ++ ev1) = (r, ev2) -> bind m k h = (r, ev1 ++ ev2).
Proof. unfold bind; intros -> ->; reflexivity. Qed.

(** [emits P m]: every event [m] emits satisfies [P]. *)
Definition emits {Ev A} (P : Ev -> Prop) (m : M Ev A) : Prop :=
  forall h, Forall P (snd (m h)).

Lemma emits_bind {Ev A B} (P : Ev -> Prop) (m : M Ev A) (k : A -> M Ev B) :
  emits P m -> (forall a, emits P (k a)) -> emits P (bind m k).
Proof.
  intros Hm Hk h. specialize (Hm h). unfold bind.
  destruct (m h) as [[e|a] ev1]; [exact Hm|].
  specialize (Hk a (h ++ ev1)). destruct (k a (h ++ ev1)) as [r ev2].
  apply Forall_app; split; assumption.
Qed.

Lemma emits_ret {Ev A} (P : Ev -> Prop) (a : A) : emits P (ret a).
Proof. intros h; constructor. Qed.

Lemma emits_raise {Ev A} (P : Ev -> Prop) e : emits P (@raise Ev A e).
Proof. intros h; constructor. Qed.

Lemma emits_lib_read {Ev A} (P : Ev -> Prop) (f : list Ev -> nat + A) : emits P (lib_read f).
Proof. intros h; unfold lib_read; destruct (f h); constructor. Qed.

Lemma emits_lib {Ev A} (P : Ev -> Prop) (r : nat + A) : emits P (lib r).
Proof. apply emits_lib_read. Qed.

Lemma emits_getitem {Ev A} (P : Ev -> Prop) (l : list A) i : emits P (getitem l i).
Proof. unfold getitem; destruct (nth_error l i); [apply emits_ret|apply emits_raise]. Qed.

Lemma emits_weaken {Ev A} (P Q : Ev -> Prop) (m : M Ev A) :
  (forall e, P e -> Q e) -> emits P m -> emits Q m.
Proof. intros HPQ Hm h; eapply Forall_impl; [exact HPQ|apply Hm]. Qed.

Lemma filter_image_map_Mkdir {Img} (qs : list Path) :
  filter is_image_write (map (@Mkdir Img) qs) = [].
Proof. induction qs as [|q rest IH]; [reflexivity|exact IH]. Qed.

Lemma filter_write_map_Mkdir {Img} (qs : list Path) :
  filter is_write (map (@Mkdir Img) qs) = [].
Proof. induction qs as [|q rest IH]; [reflexivity|exact IH]. Qed.

Lemma In_write_after_chain {Img} (qs : list Path) (w : event Img) p f :
  In (Write p f) (map Mkdir qs ++ [w]) -> Write p f = w.
Proof.
  intros H; apply in_app_or in H as [H|[H|[]]];
    [apply in_map_iff in H as (q & [=] & _)|symmetry; exact H].
Qed.

Lemma Forall_map_Mkdir {Img} (qs : list Path) :
  Forall (fun x : event Img => exists q, x = Mkdir q /\ In q qs) (map Mkdir qs).
Proof.
  apply Forall_forall; intros x Hx; apply in_map_iff in Hx as (q & <- & Hq); eauto.
Qed.

(** A step that emits nothing. *)
Definition silent {Ev A} (m : M Ev A) : Prop := forall h, snd (m h) = [].

Lemma bind_silent {Ev A B} (m : M Ev A) (k : A -> M Ev B) h r ev :
  silent m -> bind m k h = (r, ev) ->
  (exists e, m h = (inl e, []) /\ r = inl e /\ ev = []) \/
  (exists a, m h = (inr a, []) /\ k a h = (r, ev)).
Proof.
  intros Hm; specialize (Hm h); unfold bind.
  destruct (m h) as [[e|a] ev1]; simpl in Hm; subst; intros H.
  - inversion H; subst; left; exists e; auto.
  - rewrite app_nil_r in H; right; exists a; split; [reflexivity|].
    destruct (k a h) as [r2 ev2]; inversion H; subst; reflexivity.
Qed.

Lemma silent_lib_read {Ev A} (f : list Ev -> nat + A) : silent (lib_read f).
Proof. intros h; unfold lib_read; destruct (f h); reflexivity. Qed.

Lemma silent_getitem {Ev A} (l : list A) i : silent (@getitem Ev A l i).
Proof. intros h; unfold getitem; destruct (nth_error l i); reflexivity. Qed.

Create HintDb emits.
#[global] Hint Resolve emits_ret emits_raise emits_lib_read emits_lib emits_getitem : emits.

Section Job.

Variable E : Env.

Lemma emits_mkdir1 (P : event (Img E) -> Prop) q : P (Mkdir q) -> emits P (mkdir1 E q).
Proof. intros HP h; unfold mkdir1; destruct (io_ok E h q); repeat constructor; assumption. Qed.

Lemma emits_mkdirs (P : event (Img E) -> Prop) qs :
  (forall q, In q qs -> P (Mkdir q)) -> emits P (mkdirs E qs).
Proof.
  induction qs as [|q rest IH]; intros HP; simpl; [apply emits_ret|].
  apply emits_bind; [apply emits_mkdir1, HP; left; reflexivity|intros _].
  apply IH; intros q' Hq'; apply HP; right; exact Hq'.
Qed.

Lemma emits_mkdir (P : event (Img E) -> Prop) p :
  (forall q, In q (dir_chain p) -> P (Mkdir q)) -> emits P (mkdir E p).
Proof. apply emits_mkdirs. Qed.

Lemma mkdirs_inr qs h u ev : mkdirs E qs h = (inr u, ev) -> ev = map Mkdir qs.
Proof.
  revert h ev; induction qs as [|q rest IH]; simpl; intros h ev H.
  - unfold ret in H; inversion H; reflexivity.
  - apply bind_inr in H as (a & ev1 & ev2 & H1 & H2 & ->).
    unfold mkdir1 in H1; destruct (io_ok E h q); inversion H1; subst.
    rewrite (IH _ _ H2); reflexivity.
Qed.

(** A refused [mkdir] raises [OSError] after making part of its chain. *)
Lemma mkdirs_inl qs h e ev :
  mkdirs E qs h = (inl e, ev) ->
  (exists q, e = OSError q) /\ Forall (fun x => exists q, x = Mkdir q /\ In q qs) ev.
Proof.
  revert h ev; induction qs as [|q rest IH]; simpl; intros h ev H; [unfold ret in H; discriminate|].
  apply bind_inv in H as [(e' & H1 & He)|(u & ev1 & ev2 & H1 & H2 & ->)];
    unfold mkdir1 in H1; destruct (io_ok E h q); inversion H1; subst.
  - inversion He; subst; split; [eauto|constructor].
  - destruct (IH _ _ H2) as [He Hf]; split; [exact He|].
    constructor; [exists q; split; [reflexivity|left; reflexivity]|].
    eapply Forall_impl; [|exact Hf]; intros x (q' & -> & Hq').
    exists q'; split; [reflexivity|right; exact Hq'].
Qed.

(** A successful [mkdir] went through its whole chain. *)
Lemma mkdir_inr p h u ev : mkdir E p h = (inr u, ev) -> ev = map Mkdir (dir_chain p).
Proof. apply mkdirs_inr. Qed.

Lemma emits_save (P : event (Img E) -> Prop) p f : P (Write p f) -> emits P (save E p f).
Proof. intros HP h; unfold save; destruct (io_ok E h p); repeat constructor; assumption. Qed.

(** Inverting one step of a successful computation. *)
Ltac step H :=
  let a := fresh "a" in let ev1 := fresh "ev" in let ev2 := fresh "ev" in
  let H1 := fresh "Hs" in let H2 := fresh "Hk" in
  apply bind_inr in H as (a & ev1 & ev2 & H1 & H2 & ->); rename H2 into H.

(** A successful job: what it read, what it emitted, what it returned. *)
Lemma create_contrast_image_inr output_dir preprocessing gamma caps_dict data_df
    file_type data_idx output_df h res ev :
  create_contrast_image E output_dir preprocessing gamma caps_dict data_df file_type
    data_idx output_df h = (inr res, ev) ->
  exists row caps_dir found image_file subject_id g0 g1 contrast image contrast_image,
    nth_error data_df data_idx = Some row /\
    caps_dict (cohort row) = Some caps_dir /\
    clinica_file_reader E h [participant_id row] [session_id row] caps_dir file_type
      = inr found /\
    nth_error (fst found) 0 = Some image_file /\
    nth_error (split_on "-" (participant_id row)) 1 = Some subject_id /\
    nth_error gamma 0 = Some g0 /\ nth_error gamma 1 = Some g1 /\
    RandomGamma E (g0, g1) = inr contrast /\
    apply_transform E contrast (rand E data_idx) image = inr contrast_image /\
    let dir := div (div (div (div output_dir "subjects") ("sub-CONT" ++ subject_id)%string)
                         (session_id row)) preprocessing in
    ScalarImage E (h ++ map Mkdir (dir_chain dir)) (Path_of_string image_file) = inr image /\
    ev = map Mkdir (dir_chain dir) ++
         [Write (div dir ("sub-CONT" ++ subject_id ++ "_" ++ session_id row ++ "_"
                          ++ join "_" (skipn 2 (split_on "_"
                                 (name (Path_of_string image_file)))))%string)
                (NiftiFile contrast_image)] /\
    res = output_df ++ [mk_out_row ("sub-CONT" ++ subject_id)%string (session_id row)
                                   "contrast"].
Proof.
  unfold create_contrast_image; intros H.
  step H. unfold loc in Hs; destruct (nth_error data_df data_idx) as [row|] eqn:Hrow;
    inversion Hs; subst; clear Hs.
  step H. unfold dict_get in Hs; destruct (caps_dict (cohort a)) as [cd|] eqn:Hcd;
    inversion Hs; subst; clear Hs.
  step H. unfold lib_read in Hs; rewrite !app_nil_r in *.
  destruct (clinica_file_reader E h _ _ _ _) as [c|found] eqn:Hf; inversion Hs; subst; clear Hs.
  step H. unfold getitem in Hs; destruct (nth_error (fst a1) 0) as [img_f|] eqn:Himg;
    inversion Hs; subst; clear Hs.
  step H. unfold getitem in Hs;
    destruct (nth_error (split_on "-" (participant_id a)) 1) as [sid|] eqn:Hsid;
    inversion Hs; subst; clear Hs.
  step H. apply mkdir_inr in Hs; subst; rewrite !app_nil_r in *.
  step H. unfold getitem in Hs; destruct (nth_error gamma 0) as [x0|] eqn:Hg0;
    inversion Hs; subst; clear Hs.
  step H. unfold getitem in Hs; destruct (nth_error gamma 1) as [x1|] eqn:Hg1;
    inversion Hs; subst; clear Hs.
  step H. unfold lib, lib_read in Hs.
  match type of Hs with context [RandomGamma E ?g] =>
    destruct (RandomGamma E g) as [c|tr] eqn:Htr end;
    inversion Hs; subst; clear Hs.
  step H. unfold lib_read in Hs; rewrite !app_nil_r in *.
  match type of Hs with context [ScalarImage E ?hh ?pp] =>
    destruct (ScalarImage E hh pp) as [c|im] eqn:Hsc end;
    inversion Hs; subst; clear Hs.
  step H. unfold lib, lib_read in Hs;
  match type of Hs with context [apply_transform E ?t ?r ?i] =>
    destruct (apply_transform E t r i) as [c|ci] eqn:Hap end;
    inversion Hs; subst; clear Hs.
  step H. unfold save in Hs; rewrite !app_nil_r in *.
  match type of Hs with context [io_ok E ?hh ?pp] => destruct (io_ok E hh pp) end;
    inversion Hs; subst; clear Hs.
  unfold ret in H; inversion H; subst; clear H.
  exists a, a0, a1, a2, a3, a5, a6, a7, a8, a9.
  repeat split; auto.
Qed.

Lemma emits_bind_ret {Ev A B} (P : Ev -> Prop) (a : A) (k : A -> M Ev B) :
  emits P (k a) -> emits P (bind (ret a) k).
Proof.
  intros Hk h; unfold bind, ret; rewrite app_nil_r.
  specialize (Hk h); destruct (k a h); exact Hk.
Qed.

Lemma emits_bind_raise {Ev A B} (P : Ev -> Prop) e (k : A -> M Ev B) :
  emits P (bind (raise e) k).
Proof. intros h; unfold bind, raise; constructor. Qed.

(** Every event a job emits, whether it succeeds or fails, is the creation of
    its image directory (or of one of its ancestors) or the write of its
    image there. *)
Lemma create_contrast_image_emits (P : event (Img E) -> Prop) output_dir preprocessing
    gamma caps_dict data_df file_type data_idx output_df :
  (forall row subject_id q,
     nth_error data_df data_idx = Some row ->
     nth_error (split_on "-" (participant_id row)) 1 = Some subject_id ->
     In q (dir_chain (div (div (div (div output_dir "subjects")
                                     ("sub-CONT" ++ subject_id)%string)
                                (session_id row)) preprocessing)) ->
     P (Mkdir q)) ->
  (forall row subject_id image_file img,
     nth_error data_df data_idx = Some row ->
     nth_error (split_on "-" (participant_id row)) 1 = Some subject_id ->
     P (Write (div (div (div (div (div output_dir "subjects")
                                  ("sub-CONT" ++ subject_id)%string)
                             (session_id row)) preprocessing)
                   ("sub-CONT" ++ subject_id ++ "_" ++ session_id row ++ "_"
                    ++ join "_" (skipn 2 (split_on "_"
                           (name (Path_of_string image_file)))))%string)
              (NiftiFile img))) ->
  emits P (create_contrast_image E output_dir preprocessing gamma caps_dict data_df
             file_type data_idx output_df).
Proof.
  intros HD HW; unfold create_contrast_image, loc.
  destruct (nth_error data_df data_idx) as [row|] eqn:Hrow;
    [apply emits_bind_ret|apply emits_bind_raise].
  apply emits_bind; [unfold dict_get; destruct (caps_dict _); auto with emits|intros caps_dir].
  apply emits_bind; [auto with emits|intros found].
  apply emits_bind; [auto with emits|intros image_file].
  unfold getitem at 1.
  destruct (nth_error (split_on "-" (participant_id row)) 1) as [sid|] eqn:Hsid;
    [apply emits_bind_ret|apply emits_bind_raise].
  apply emits_bind; [apply emits_mkdir; intros q Hq; apply (HD row sid q eq_refl Hsid Hq)
                    |intros _].
  repeat (apply emits_bind;
          [first [solve [auto with emits]
                 | apply emits_save; exact (HW row sid image_file _ eq_refl Hsid)]
          | intro]).
  auto with emits.
Qed.

End Job.

(** ** The worker pool *)

Section Pool.

Variable E : Env.
Variable A : Type.

Lemma nth_task_emits (P : event (Img E) -> Prop) (tasks : list (M (event (Img E)) A)) k :
  Forall (emits P) tasks -> emits P (nth k tasks (raise IndexError)).
Proof.
  intros Hall. destruct (nth_in_or_default k tasks (raise IndexError)) as [Hin | ->].
  - rewrite Forall_forall in Hall; apply Hall, Hin.
  - apply emits_raise.
Qed.

Lemma run_tasks_emits (P : event (Img E) -> Prop) order (tasks : list (M (event (Img E)) A)) :
  Forall (emits P) tasks -> emits P (run_tasks E order tasks).
Proof.
  intros Hall; induction order as [|k rest IH]; simpl; [apply emits_ret|].
  apply emits_bind; [apply nth_task_emits, Hall|intros a].
  apply emits_bind; [exact IH|intros rs; apply emits_ret].
Qed.

Lemma collect_emits (P : event (Img E) -> Prop) ks (rs : list (nat * A)) :
  emits P (collect E ks rs).
Proof.
  induction ks as [|k rest IH]; simpl; [apply emits_ret|].
  destruct (lookup_result k rs); [|apply emits_raise].
  apply emits_bind; [exact IH|intros; apply emits_ret].
Qed.

Lemma Parallel_emits (P : event (Img E) -> Prop) n_jobs (tasks : list (M (event (Img E)) A)) :
  Forall (emits P) tasks -> emits P (Parallel E n_jobs tasks).
Proof.
  intros Hall; unfold Parallel; destruct (Z.eqb n_jobs 0); [apply emits_raise|].
  apply emits_bind; [apply run_tasks_emits, Hall|intros; apply collect_emits].
Qed.

Lemma run_tasks_inr order (tasks : list (M (event (Img E)) A)) h rs ev :
  run_tasks E order tasks h = (inr rs, ev) ->
  map fst rs = order /\
  Forall (fun ka => exists h' ev', nth (fst ka) tasks (raise IndexError) h' = (inr (snd ka), ev')) rs.
Proof.
  revert h rs ev; induction order as [|k rest IH]; simpl; intros h rs ev H.
  - unfold ret in H; inversion H; subst; split; auto.
  - apply bind_inr in H as (a & ev1 & ev2 & Ha & H & ->).
    apply bind_inr in H as (rs' & ev3 & ev4 & Hr & H & ->).
    unfold ret in H; inversion H; subst.
    destruct (IH _ _ _ Hr) as [Hf Hq]. simpl; rewrite Hf; split; [reflexivity|].
    constructor; [simpl; eauto|exact Hq].
Qed.

Lemma run_tasks_count (f : event (Img E) -> bool) order (tasks : list (M (event (Img E)) A)) h rs ev :
  (forall k h a ev, nth k tasks (raise IndexError) h = (inr a, ev) -> length (filter f ev) = 1%nat) ->
  run_tasks E order tasks h = (inr rs, ev) -> length (filter f ev) = length order.
Proof.
  intros Hone; revert h rs ev; induction order as [|k rest IH]; simpl; intros h rs ev H.
  - unfold ret in H; inversion H; subst; reflexivity.
  - apply bind_inr in H as (a & ev1 & ev2 & Ha & H & ->).
    apply bind_inr in H as (rs' & ev3 & ev4 & Hr & H & ->).
    unfold ret in H; inversion H; subst.
    rewrite !filter_app, !length_app, (Hone _ _ _ _ Ha), (IH _ _ _ Hr); simpl; lia.
Qed.

Lemma lookup_result_In k (rs : list (nat * A)) a :
  lookup_result k rs = Some a -> In (k, a) rs.
Proof.
  induction rs as [|[j b] rest IH]; simpl; [discriminate|].
  destruct (Nat.eqb_spec j k) as [-> | _]; intros H; [inversion H; subst; auto|auto].
Qed.

Lemma collect_inr ks (rs : list (nat * A)) h res ev :
  collect E ks rs h = (inr res, ev) ->
  ev = [] /\ Forall2 (fun k a => lookup_result k rs = Some a) ks res.
Proof.
  revert h res ev; induction ks as [|k rest IH]; simpl; intros h res ev H.
  - unfold ret in H; inversion H; subst; auto.
  - destruct (lookup_result k rs) as [a|] eqn:Hk; [|unfold raise in H; discriminate].
    apply bind_inr in H as (r & ev1 & ev2 & Hr & H & ->).
    unfold ret in H; inversion H; subst.
    destruct (IH _ _ _ Hr) as [-> Hf]; split; [reflexivity|constructor; assumption].
Qed.

(** Each result comes from a successful run of its own task. *)
Lemma Parallel_inr (Q : nat -> A -> Prop) n_jobs (tasks : list (M (event (Img E)) A)) h res ev :
  (forall k h a ev, nth k tasks (raise IndexError) h = (inr a, ev) -> Q k a) ->
  Parallel E n_jobs tasks h = (inr res, ev) ->
  Forall2 Q (seq 0 (length tasks)) res.
Proof.
  intros HQ; unfold Parallel; destruct (Z.eqb n_jobs 0); [unfold raise; discriminate|].
  intros H; apply bind_inr in H as (rs & ev1 & ev2 & Hr & Hc & ->).
  destruct (run_tasks_inr _ _ _ _ _ Hr) as [_ Hall].
  destruct (collect_inr _ _ _ _ _ Hc) as [_ Hf].
  eapply Forall2_impl; [|exact Hf]; intros k a Hk; simpl in Hk.
  apply lookup_result_In in Hk. rewrite Forall_forall in Hall.
  destruct (Hall _ Hk) as (h' & ev' & Ht); eapply HQ; exact Ht.
Qed.

(** When the pool succeeds, every task has run. *)
Lemma Parallel_inr_count (f : event (Img E) -> bool) n_jobs (tasks : list (M (event (Img E)) A)) h res ev :
  (forall k h a ev, nth k tasks (raise IndexError) h = (inr a, ev) -> length (filter f ev) = 1%nat) ->
  Parallel E n_jobs tasks h = (inr res, ev) ->
  length (filter f ev) = length tasks.
Proof.
  intros Hone; unfold Parallel; destruct (Z.eqb n_jobs 0); [unfold raise; discriminate|].
  intros H; apply bind_inr in H as (rs & ev1 & ev2 & Hr & Hc & ->).
  destruct (collect_inr _ _ _ _ _ Hc) as [-> _]; rewrite app_nil_r.
  rewrite (run_tasks_count _ _ _ _ _ _ Hone Hr).
  rewrite (Permutation_length (pool_order_perm E n_jobs (length tasks))), length_seq.
  reflexivity.
Qed.

(** A task that raises makes the whole pool raise the same exception. *)
Lemma run_tasks_inl k order (tasks : list (M (event (Img E)) A)) h rs ev1 i e ev2 :
  run_tasks E (firstn k order) tasks h = (inr rs, ev1) ->
  nth_error order k = Some i ->
  nth i tasks (raise IndexError) (h ++ ev1) = (inl e, ev2) ->
  run_tasks E order tasks h = (inl e, ev1 ++ ev2).
Proof.
  revert k h rs ev1; induction order as [|j rest IH]; intros k h rs ev1 Hpre Hi Hfail.
  - destruct k; discriminate.
  - destruct k as [|k]; simpl in *.
    + unfold ret in Hpre; inversion Hpre; subst; inversion Hi; subst.
      rewrite app_nil_r in Hfail; simpl. apply bind_of_inl; exact Hfail.
    + apply bind_inr in Hpre as (a & eva & evb & Ha & H & ->).
      apply bind_inr in H as (rs' & evc & evd & Hr & H & ->).
      unfold ret in H; inversion H; subst.
      rewrite app_nil_r, app_assoc in Hfail. rewrite app_nil_r.
      rewrite <- app_assoc. eapply bind_of_inr; [exact Ha|].
      apply bind_of_inl. eapply IH; eassumption.
Qed.

End Pool.

(** ** A failed job writes no file *)

Definition no_write_on_fail {Ev A} (isw : Ev -> bool) (m : M Ev A) : Prop :=
  forall h e ev, m h = (inl e, ev) -> Forall (fun x => isw x = false) ev.

Lemma no_write_on_fail_bind {Ev A B} (isw : Ev -> bool) (m : M Ev A) (k : A -> M Ev B) :
  emits (fun x => isw x = false) m -> (forall a, no_write_on_fail isw (k a)) ->
  no_write_on_fail isw (bind m k).
Proof.
  intros Hm Hk h e ev H. apply bind_inv in H as [(e' & Hm' & _)|(a & ev1 & ev2 & Hm' & Hk' & ->)].
  - specialize (Hm h); rewrite Hm' in Hm; exact Hm.
  - apply Forall_app; split.
    + specialize (Hm h); rewrite Hm' in Hm; exact Hm.
    + eapply Hk; exact Hk'.
Qed.

Section JobWrites.

Variable E : Env.

Lemma create_contrast_image_no_write_on_fail output_dir preprocessing gamma caps_dict
    data_df file_type data_idx output_df :
  no_write_on_fail is_write (create_contrast_image E output_dir preprocessing gamma
                               caps_dict data_df file_type data_idx output_df).
Proof.
  unfold create_contrast_image.
  repeat (apply no_write_on_fail_bind;
          [solve [ unfold loc; destruct (nth_error data_df data_idx); auto with emits
                 | unfold dict_get; destruct (caps_dict _); auto with emits
                 | apply emits_mkdir; intros; reflexivity
                 | auto with emits ]
          | intro]).
  intros h e ev H. unfold bind, save, ret in H.
  destruct (io_ok E h _); inversion H; subst; constructor.
Qed.

(** A job that wrote an image has succeeded. *)
Lemma create_contrast_image_write_inr output_dir preprocessing gamma caps_dict data_df
    file_type data_idx output_df h r ev p f :
  create_contrast_image E output_dir preprocessing gamma caps_dict data_df file_type
    data_idx output_df h = (r, ev) ->
  In (Write p f) ev -> exists res, r = inr res.
Proof.
  intros H Hin. destruct r as [e|res]; [|eauto].
  apply create_contrast_image_no_write_on_fail in H.
  rewrite Forall_forall in H. specialize (H _ Hin). discriminate.
Qed.

End JobWrites.

(** ** Which exceptions a computation raises *)

Definition raises_only {Ev A} (Pe : exn -> Prop) (m : M Ev A) : Prop :=
  forall h e ev, m h = (inl e, ev) -> Pe e.

Definition nne (e : exn) : Prop := not_name_error e = true.

Lemma raises_only_bind {Ev A B} Pe (m : M Ev A) (k : A -> M Ev B) :
  raises_only Pe m -> (forall a, raises_only Pe (k a)) -> raises_only Pe (bind m k).
Proof.
  intros Hm Hk h e ev H. apply bind_inv in H as [(e' & Hm' & [=->])|(a & ev1 & ev2 & _ & Hk' & _)].
  - eapply Hm; exact Hm'.
  - eapply Hk; exact Hk'.
Qed.

Lemma nne_ret {Ev A} (a : A) : raises_only nne (@ret Ev A a).
Proof. intros h e ev H; discriminate. Qed.

Lemma nne_raise {Ev A} e : not_name_error e = true -> raises_only nne (@raise Ev A e).
Proof. intros He h e' ev H; inversion H; subst; exact He. Qed.

Lemma nne_lib_read {Ev A} (f : list Ev -> nat + A) : raises_only nne (lib_read f).
Proof. intros h e ev; unfold lib_read; destruct (f h); intros H; inversion H; reflexivity. Qed.

Lemma nne_lib {Ev A} (r : nat + A) : raises_only nne (@lib Ev A r).
Proof. apply nne_lib_read. Qed.

Lemma nne_getitem {Ev A} (l : list A) i : raises_only nne (@getitem Ev A l i).
Proof. unfold getitem; destruct (nth_error l i); [apply nne_ret|apply nne_raise; reflexivity]. Qed.

Create HintDb nne.
#[global] Hint Resolve raises_only_bind nne_ret nne_lib_read nne_lib nne_getitem : nne.
#[global] Hint Extern 1 (raises_only nne (raise _)) => apply nne_raise; reflexivity : nne.

Section Exceptions.

Variable E : Env.

Lemma nne_mkdir1 q : raises_only nne (mkdir1 E q).
Proof. intros h e ev; unfold mkdir1; destruct (io_ok E h q); intros H; inversion H; reflexivity. Qed.

Lemma nne_mkdir p : raises_only nne (mkdir E p).
Proof.
  unfold mkdir; induction (dir_chain p) as [|q rest IH]; simpl; [apply nne_ret|].
  apply raises_only_bind; [apply nne_mkdir1|intros; exact IH].
Qed.

Lemma nne_save p f : raises_only nne (save E p f).
Proof. intros h e ev; unfold save; destruct (io_ok E h p); intros H; inversion H; reflexivity. Qed.

Hint Resolve nne_mkdir nne_save : nne.

Lemma create_contrast_image_nne output_dir preprocessing gamma caps_dict data_df file_type
    data_idx output_df :
  raises_only nne (create_contrast_image E output_dir preprocessing gamma caps_dict data_df
                     file_type data_idx output_df).
Proof.
  unfold create_contrast_image.
  repeat (apply raises_only_bind;
          [solve [ unfold loc; destruct (nth_error data_df data_idx); auto with nne
                 | unfold dict_get; destruct (caps_dict _); auto with nne
                 | auto with nne ]
          | intro]).
  auto with nne.
Qed.

Lemma Parallel_nne {A} n_jobs (tasks : list (M (event (Img E)) A)) :
  Forall (raises_only nne) tasks -> raises_only nne (Parallel E n_jobs tasks).
Proof.
  intros Hall. unfold Parallel. destruct (Z.eqb n_jobs 0); [auto with nne|].
  apply raises_only_bind.
  - generalize (pool_order E n_jobs (length tasks)) as order.
    induction order as [|k rest IH]; simpl; [auto with nne|].
    apply raises_only_bind; [|intros; apply raises_only_bind; auto with nne].
    destruct (nth_in_or_default k tasks (raise IndexError)) as [Hin | ->].
    + rewrite Forall_forall in Hall; apply Hall, Hin.
    + auto with nne.
  - intros rs. generalize (seq 0 (length tasks)) as ks.
    induction ks as [|k rest IH]; simpl; [auto with nne|].
    destruct (lookup_result k rs); [|auto with nne].
    apply raises_only_bind; auto with nne.
Qed.

Lemma gcd_prefix_nne caps_directory output_dir tsv_path preprocessing multi_cohort
    uncropped_image tracer suvr_reference_region :
  raises_only nne (gcd_prefix E caps_directory output_dir tsv_path preprocessing
                     multi_cohort uncropped_image tracer suvr_reference_region).
Proof.
  unfold gcd_prefix, commandline_to_json, load_and_check_tsv; simpl.
  repeat (apply raises_only_bind; [solve [auto with nne]|intro]).
  auto with nne.
Qed.

End Exceptions.

(** ** The run, phase by phase *)

Lemma fold_prepend (os : list out_row) acc :
  fold_left (fun acc result => result ++ acc) (map (fun o => [o]) os) acc = rev os ++ acc.
Proof.
  revert acc; induction os as [|o rest IH]; intros acc; simpl; [reflexivity|].
  rewrite IH, <- app_assoc; reflexivity.
Qed.

Lemma nth_map_seq {B} (f : nat -> B) n k d :
  nth k (map f (seq 0 n)) d = if Nat.ltb k n then f k else d.
Proof.
  destruct (Nat.ltb_spec k n) as [Hlt|Hge].
  - rewrite nth_indep with (d' := f 0) by (rewrite length_map, length_seq; lia).
    rewrite map_nth, seq_nth by lia; reflexivity.
  - apply nth_overflow; rewrite length_map, length_seq; lia.
Qed.

Lemma Forall2_rev {X Y} (R : X -> Y -> Prop) l1 l2 :
  Forall2 R l1 l2 -> Forall2 R (rev l1) (rev l2).
Proof.
  induction 1 as [|x y l1' l2' Hxy _ IH]; simpl; [constructor|].
  apply Forall2_app; [exact IH|repeat constructor; exact Hxy].
Qed.

Section Run.

Variable E : Env.

Lemma gcd_prefix_inr caps_directory output_dir tsv_path preprocessing multi_cohort
    uncropped_image tracer suvr_reference_region h x ev :
  gcd_prefix E caps_directory output_dir tsv_path preprocessing multi_cohort
    uncropped_image tracer suvr_reference_region h = (inr x, ev) ->
  ev = map Mkdir (dir_chain output_dir) ++
       Write (div output_dir "commandline.json")
         (JsonFile [("output_dir", JPath output_dir); ("caps_dir", JPath caps_directory);
                    ("preprocessing", JStr preprocessing)])
       :: map Mkdir (dir_chain (div output_dir "subjects")).
Proof.
  unfold gcd_prefix, commandline_to_json, load_and_check_tsv; simpl; intros H.
  repeat match goal with
         | H : bind _ _ _ = (inr _, _) |- _ => apply bind_inr in H as (? & ? & ? & ? & ? & ->)
         end.
  repeat match goal with
         | H : mkdirs _ _ _ = (inr _, _) |- _ => apply mkdirs_inr in H; subst
         | H : mkdir _ _ _ = (inr _, _) |- _ => apply mkdir_inr in H; subst
         end.
  unfold save, lib, lib_read, ret in *.
  repeat match goal with
         | H : context [match ?x with _ => _ end] |- _ => destruct x
         end;
  repeat match goal with
         | H : (_, _) = (_, _) |- _ => inversion H; subst; clear H
         end.
  simpl; rewrite !app_nil_r, <- app_assoc; reflexivity.
Qed.

Lemma gcd_prefix_emits caps_directory output_dir tsv_path preprocessing multi_cohort
    uncropped_image tracer suvr_reference_region :
  emits (fun e => is_write e = false \/
                  e = Write (div output_dir "commandline.json")
                        (JsonFile [("output_dir", JPath output_dir);
                                   ("caps_dir", JPath caps_directory);
                                   ("preprocessing", JStr preprocessing)]))
    (gcd_prefix E caps_directory output_dir tsv_path preprocessing multi_cohort
       uncropped_image tracer suvr_reference_region).
Proof.
  unfold gcd_prefix, commandline_to_json, load_and_check_tsv; simpl.
  repeat (apply emits_bind; [|intro]);
    first [apply emits_mkdir; left; reflexivity
          | apply emits_save; right; reflexivity
          | auto with emits].
Qed.

Lemma gcd_prefix_no_image caps_directory output_dir tsv_path preprocessing multi_cohort
    uncropped_image tracer suvr_reference_region h r ev :
  gcd_prefix E caps_directory output_dir tsv_path preprocessing multi_cohort
    uncropped_image tracer suvr_reference_region h = (r, ev) ->
  filter is_image_write ev = [].
Proof.
  intros H.
  pose proof (gcd_prefix_emits caps_directory output_dir tsv_path preprocessing multi_cohort
                uncropped_image tracer suvr_reference_region h) as He.
  rewrite H in He; simpl in He; clear H.
  induction He as [|x l [Hx|Hx] _ IH]; simpl; [reflexivity| |subst; exact IH].
  destruct x; [exact IH|discriminate].
Qed.

Lemma gcd_suffix_cases output_dir results_df h r ev :
  gcd_suffix E output_dir results_df h = (r, ev) ->
  let output_df := fold_left (fun acc result => result ++ acc) results_df [] in
  (ev = [] /\ exists p, r = inl (OSError p)) \/
  (ev = [Write (div output_dir "data.tsv") (TsvFile output_df)] /\ exists p, r = inl (OSError p)) \/
  (ev = [Write (div output_dir "data.tsv") (TsvFile output_df);
         Write (div output_dir "missing_mods.tsv") (MissingModsFile output_df)] /\
   r = inl (NameError "logger")).
Proof.
  unfold gcd_suffix, write_missing_mods, save, bind, raise; simpl.
  destruct (io_ok E h _); [|intros H; inversion H; subst; left; eauto].
  destruct (io_ok E _ _); intros H; inversion H; subst; right; [right|left]; eauto.
Qed.

Lemma generate_contrast_dataset_inv caps_directory output_dir n_proc tsv_path preprocessing
    multi_cohort uncropped_image tracer suvr_reference_region gamma h r ev :
  generate_contrast_dataset E caps_directory output_dir n_proc tsv_path preprocessing
    multi_cohort uncropped_image tracer suvr_reference_region gamma h = (r, ev) ->
  (exists e, gcd_prefix E caps_directory output_dir tsv_path preprocessing multi_cohort
               uncropped_image tracer suvr_reference_region h = (inl e, ev) /\ r = inl e) \/
  (exists caps_dict data_df file_type ev0,
     gcd_prefix E caps_directory output_dir tsv_path preprocessing multi_cohort
       uncropped_image tracer suvr_reference_region h = (inr (caps_dict, data_df, file_type), ev0) /\
     let tasks := map (fun data_idx => create_contrast_image E output_dir preprocessing gamma
                                         caps_dict data_df file_type data_idx [])
                      (seq 0 (length data_df)) in
     ((exists e ev1, Parallel E n_proc tasks (h ++ ev0) = (inl e, ev1) /\ r = inl e /\
                     ev = ev0 ++ ev1) \/
      (exists results_df ev1 ev2, Parallel E n_proc tasks (h ++ ev0) = (inr results_df, ev1) /\
         gcd_suffix E output_dir results_df ((h ++ ev0) ++ ev1) = (r, ev2) /\
         ev = ev0 ++ ev1 ++ ev2))).
Proof.
  unfold generate_contrast_dataset; intros H.
  apply bind_inv in H as [(e & He & ->)|([[cd df] ft] & ev0 & ev' & Hp & H & ->)];
    [left; eauto|right].
  exists cd, df, ft, ev0; split; [exact Hp|cbv zeta].
  apply bind_inv in H as [(e & He & ->)|(res & ev1 & ev2 & Hpar & Hs & ->)];
    [left; eauto|right; eauto 7].
Qed.

(** The [data_idx]-th task of the pool. *)
Lemma contrast_task_inr output_dir preprocessing gamma caps_dict data_df file_type k h a ev :
  nth k (map (fun data_idx => create_contrast_image E output_dir preprocessing gamma
                                caps_dict data_df file_type data_idx [])
             (seq 0 (length data_df))) (raise IndexError) h = (inr a, ev) ->
  (exists o row, nth_error data_df k = Some row /\ contrast_row row o /\ a = [o]) /\
  length (filter is_image_write ev) = 1.
Proof.
  rewrite nth_map_seq. destruct (Nat.ltb k (length data_df)); [|unfold raise; discriminate].
  intros H. apply create_contrast_image_inr in H.
  destruct H as (row & cd & found & img_f & sid & g0 & g1 & tr & im & ci &
                 Hrow & _ & _ & _ & Hsid & _ & _ & _ & _ & _ & -> & ->).
  split; [|rewrite filter_app, filter_image_map_Mkdir; reflexivity].
  eexists _, row; split; [exact Hrow|split; [exists sid; split; [exact Hsid|reflexivity]|reflexivity]].
Qed.

Lemma rows_of_results pre rows results_df :
  Forall2 (fun k a => exists o row, nth_error (pre ++ rows) k = Some row /\
                                    contrast_row row o /\ a = [o])
          (seq (length pre) (length rows)) results_df ->
  exists os, results_df = map (fun o => [o]) os /\ Forall2 contrast_row rows os.
Proof.
  revert pre results_df; induction rows as [|row rest IH]; intros pre res H; simpl in H.
  - inversion H; subst; exists []; split; constructor.
  - inversion H as [|k a ks res' Hq Hrest]; subst.
    destruct Hq as (o & row' & Hnth & Hrow & ->).
    rewrite nth_error_app2, Nat.sub_diag in Hnth by lia. simpl in Hnth.
    inversion Hnth; subst.
    assert (Hl : S (length pre) = length (pre ++ [row'])) by (rewrite length_app; simpl; lia).
    rewrite Hl in Hrest.
    replace (pre ++ row' :: rest) with ((pre ++ [row']) ++ rest) in Hrest
      by (rewrite <- app_assoc; reflexivity).
    destruct (IH _ _ Hrest) as (os & -> & Hos).
    exists (o :: os); split; [reflexivity|constructor; assumption].
Qed.

(** A pool that completes returns one single-row frame per input row, in
    input order, after one image write per row. *)
Lemma contrast_pool_inr n_proc output_dir preprocessing gamma caps_dict data_df file_type h
    results_df ev :
  Parallel E n_proc
    (map (fun data_idx => create_contrast_image E output_dir preprocessing gamma caps_dict
                            data_df file_type data_idx [])
         (seq 0 (length data_df))) h = (inr results_df, ev) ->
  (exists os, results_df = map (fun o => [o]) os /\ Forall2 contrast_row data_df os) /\
  length (filter is_image_write ev) = length data_df.
Proof.
  intros H. split.
  - eapply Parallel_inr in H; [|intros k h' a ev' Ht; exact (proj1 (contrast_task_inr _ _ _ _ _ _ _ _ _ _ Ht))].
    rewrite length_map, length_seq in H.
    apply (rows_of_results [] data_df results_df); exact H.
  - eapply Parallel_inr_count in H; [|intros k h' a ev' Ht; exact (proj2 (contrast_task_inr _ _ _ _ _ _ _ _ _ _ Ht))].
    rewrite length_map, length_seq in H; exact H.
Qed.

Lemma contrast_tasks_emits (P : event (Img E) -> Prop) output_dir preprocessing gamma
    caps_dict data_df file_type :
  (forall data_idx, emits P (create_contrast_image E output_dir preprocessing gamma caps_dict
                               data_df file_type data_idx [])) ->
  Forall (emits P) (map (fun data_idx => create_contrast_image E output_dir preprocessing gamma
                                          caps_dict data_df file_type data_idx [])
                        (seq 0 (length data_df))).
Proof. intros HP; apply Forall_map, Forall_forall; intros; apply HP. Qed.

(** Jobs create directories and write images, nothing else. *)
Lemma create_contrast_image_emits_images output_dir preprocessing gamma caps_dict data_df
    file_type data_idx output_df :
  emits (fun e => is_write e = false \/ is_image_write e = true)
    (create_contrast_image E output_dir preprocessing gamma caps_dict data_df file_type
       data_idx output_df).
Proof.
  apply create_contrast_image_emits; intros; [left|right]; reflexivity.
Qed.

Lemma In_Forall_inv {X} (P : X -> Prop) l x : Forall P l -> In x l -> P x.
Proof. rewrite Forall_forall; auto. Qed.

(** The manifest: the only [TsvFile] the run writes is [data.tsv], written
    after every job has run, with one row per input row in reverse order. *)
Lemma gcd_manifest caps_directory output_dir n_proc tsv_path preprocessing multi_cohort
    uncropped_image tracer suvr_reference_region gamma h r ev p m :
  generate_contrast_dataset E caps_directory output_dir n_proc tsv_path preprocessing
    multi_cohort uncropped_image tracer suvr_reference_region gamma h = (r, ev) ->
  In (Write p (TsvFile m)) ev ->
  exists caps_dict data_df file_type ev0 os,
    gcd_prefix E caps_directory output_dir tsv_path preprocessing multi_cohort
      uncropped_image tracer suvr_reference_region h = (inr (caps_dict, data_df, file_type), ev0) /\
    Forall2 contrast_row data_df os /\ m = rev os /\ p = div output_dir "data.tsv" /\
    exists pre post, ev = pre ++ Write p (TsvFile m) :: post /\
                     length (filter is_image_write pre) = length data_df.
Proof.
  intros H Hin.
  pose proof (gcd_prefix_emits caps_directory output_dir tsv_path preprocessing multi_cohort
                uncropped_image tracer suvr_reference_region h) as Hpe.
  apply generate_contrast_dataset_inv in H
    as [(e & Hp & _)|(cd & df & ft & ev0 & Hp & [(e & ev1 & Hpar & _ & ->)|
                                                 (res & ev1 & ev2 & Hpar & Hs & ->)])].
  - rewrite Hp in Hpe; simpl in Hpe.
    destruct (In_Forall_inv _ _ _ Hpe Hin) as [Hw|Hw]; discriminate.
  - rewrite Hp in Hpe; simpl in Hpe.
    pose proof (Parallel_emits E _ _ n_proc _
                  (contrast_tasks_emits _ output_dir preprocessing gamma cd df ft
                     (fun i => create_contrast_image_emits_images _ _ _ _ _ _ i []))
                  (h ++ ev0)) as Hje.
    rewrite Hpar in Hje; simpl in Hje.
    apply in_app_or in Hin as [Hin|Hin].
    + destruct (In_Forall_inv _ _ _ Hpe Hin) as [Hw|Hw]; discriminate.
    + destruct (In_Forall_inv _ _ _ Hje Hin) as [Hw|Hw]; discriminate.
  - rewrite Hp in Hpe; simpl in Hpe.
    destruct (contrast_pool_inr _ _ _ _ _ _ _ _ _ _ Hpar) as [(os & -> & Hos) Hcount].
    pose proof (Parallel_emits E _ _ n_proc _
                  (contrast_tasks_emits _ output_dir preprocessing gamma cd df ft
                     (fun i => create_contrast_image_emits_images _ _ _ _ _ _ i []))
                  (h ++ ev0)) as Hje.
    rewrite Hpar in Hje; simpl in Hje.
    apply in_app_or in Hin as [Hin|Hin];
      [destruct (In_Forall_inv _ _ _ Hpe Hin) as [Hw|Hw]; discriminate|].
    apply in_app_or in Hin as [Hin|Hin];
      [destruct (In_Forall_inv _ _ _ Hje Hin) as [Hw|Hw]; discriminate|].
    apply gcd_suffix_cases in Hs; rewrite fold_prepend, app_nil_r in Hs.
    assert (Hev0 := gcd_prefix_no_image _ _ _ _ _ _ _ _ _ _ _ Hp).
    destruct Hs as [(-> & _)|[(-> & _)|(-> & _)]];
      [destruct Hin|simpl in Hin; destruct Hin as [Hin|[]]|
       simpl in Hin; destruct Hin as [Hin|[Hin|[]]]; [|discriminate]];
      injection Hin as Hpp Hmm; subst p m;
      exists cd, df, ft; eexists; exists os;
      (split; [exact Hp|split; [exact Hos|split; [reflexivity|split; [reflexivity|]]]]);
      exists (ev0 ++ ev1); eexists;
      (split; [rewrite <- app_assoc; reflexivity|]);
      rewrite filter_app, length_app, Hcount, Hev0; reflexivity.
Qed.

End Run.

(** ** Strings and paths *)

Lemma split_on_not_in c s : not_in c s = true -> split_on c s = [s].
Proof.
  induction s as [|a rest IH]; simpl; [reflexivity|].
  intros H; apply andb_prop in H as [Ha Hr].
  apply negb_true_iff in Ha; rewrite Ha, (IH Hr); reflexivity.
Qed.

(** The pieces of [s.split(c)] contain no [c], and keep [s]'s absence of [d]. *)
Lemma split_on_pieces c d s :
  not_in d s = true -> Forall (fun x => not_in d x = true) (split_on c s).
Proof.
  induction s as [|a rest IH]; simpl; intros H; [repeat constructor|].
  apply andb_prop in H as [Ha Hr]. specialize (IH Hr).
  destruct (Ascii.eqb a c); [constructor; [reflexivity|exact IH]|].
  destruct (split_on c rest) as [|x xs]; inversion IH; subst.
  - repeat constructor; simpl; rewrite Ha; reflexivity.
  - constructor; [simpl; rewrite Ha; assumption|assumption].
Qed.

Lemma split_on_pieces_sep c s : Forall (fun x => not_in c x = true) (split_on c s).
Proof.
  induction s as [|a rest IH]; simpl; [repeat constructor|].
  destruct (Ascii.eqb a c) eqn:Hac; [constructor; [reflexivity|exact IH]|].
  destruct (split_on c rest) as [|x xs]; inversion IH; subst.
  - repeat constructor; simpl; rewrite Hac; reflexivity.
  - constructor; [simpl; rewrite Hac; assumption|assumption].
Qed.

Lemma not_in_app c a b : not_in c (a ++ b) = not_in c a && not_in c b.
Proof. induction a as [|x rest IH]; simpl; [reflexivity|rewrite IH, andb_assoc; reflexivity]. Qed.

Lemma not_in_join c sep l :
  not_in c sep = true -> Forall (fun x => not_in c x = true) l -> not_in c (join sep l) = true.
Proof.
  intros Hsep Hl; unfold join; induction Hl as [|x xs Hx _ IH]; [reflexivity|].
  destruct xs as [|y ys]; [simpl; exact Hx|].
  change (String.concat sep (x :: y :: ys)) with (x ++ sep ++ String.concat sep (y :: ys))%string.
  rewrite !not_in_app, Hx, Hsep, IH; reflexivity.
Qed.

Lemma not_in_last c l d :
  Forall (fun x => not_in c x = true) l -> not_in c d = true -> not_in c (last l d) = true.
Proof.
  intros Hl Hd; induction Hl as [|x xs Hx Hxs IH]; [exact Hd|].
  destruct xs as [|y ys]; [exact Hx|exact IH].
Qed.

(** [Path(s).name] holds no separator. *)
Lemma name_no_slash s : not_in "/" (name (Path_of_string s)) = true.
Proof.
  unfold name, Path_of_string, path_parts; simpl.
  apply not_in_last; [|reflexivity].
  apply Forall_forall; intros x Hx; apply filter_In in Hx as [Hx _].
  exact (proj1 (Forall_forall _ _) (split_on_pieces_sep "/" s) x Hx).
Qed.

Lemma plain_parts s :
  plain s = true -> starts_with_slash s = false /\ ~ In ".." (path_parts s).
Proof.
  unfold plain; intros H; apply andb_prop in H as [Hs Hdd].
  split.
  - destruct s as [|a rest]; [reflexivity|simpl in *].
    apply andb_prop in Hs as [Ha _]; apply negb_true_iff in Ha; exact Ha.
  - unfold path_parts; rewrite split_on_not_in by exact Hs.
    intros Hin; apply filter_In in Hin as [Hin _]; destruct Hin as [Heq|[]].
    subst s; simpl in Hdd; discriminate.
Qed.

Lemma under_refl p : under p p.
Proof. split; [reflexivity|exists []; rewrite app_nil_r; split; [reflexivity|intros []]]. Qed.

Lemma under_div p q s :
  under p q -> plain s = true -> under p (div q s).
Proof.
  intros [Ha (rest & Hq & Hrest)] Hs. destruct (plain_parts s Hs) as [Hsl Hdd].
  unfold div; rewrite Hsl; split; [exact Ha|].
  exists (rest ++ path_parts s); simpl; rewrite Hq, app_assoc; split; [reflexivity|].
  intros Hin; apply in_app_or in Hin as [Hin|Hin]; contradiction.
Qed.

Lemma plain_sub_cont x : not_in "/" x = true -> plain ("sub-CONT" ++ x) = true.
Proof. intros Hx; unfold plain; simpl; rewrite Hx; reflexivity. Qed.


Lemma contrast_row_functional rows os1 os2 :
  Forall2 contrast_row rows os1 -> Forall2 contrast_row rows os2 -> os1 = os2.
Proof.
  intros H1; revert os2; induction H1 as [|r o1 rs os1' Hr _ IH]; intros os2 H2;
    inversion H2 as [|r' o2 rs' os2' Hr2 Hrest]; subst; [reflexivity|].
  destruct Hr as (s1 & Hs1 & ->), Hr2 as (s2 & Hs2 & ->).
  rewrite Hs1 in Hs2; inversion Hs2; subst. f_equal; apply IH; exact Hrest.
Qed.

Lemma Forall2_Forall_r {X Y} (R : X -> Y -> Prop) (P : Y -> Prop) l1 l2 :
  (forall x y, R x y -> P y) -> Forall2 R l1 l2 -> Forall P l2.
Proof. intros HRP; induction 1; constructor; eauto. Qed.

(** [generate_contrast_dataset] never returns normally: every run raises,
    and a run that writes the missing-modalities report, so gets through
    every other step, raises [NameError] on the undefined [logger]. *)
Lemma generate_contrast_dataset_always_raises E caps_directory output_dir n_proc tsv_path
    preprocessing multi_cohort uncropped_image tracer suvr_reference_region gamma h r ev :
  generate_contrast_dataset E caps_directory output_dir n_proc tsv_path preprocessing
    multi_cohort uncropped_image tracer suvr_reference_region gamma h = (r, ev) ->
  (exists e, r = inl e) /\
  (forall p m, In (Write p (MissingModsFile m)) ev -> r = inl (NameError "logger")).
Proof.
  intros H.
  pose proof (gcd_prefix_emits E caps_directory output_dir tsv_path preprocessing multi_cohort
                uncropped_image tracer suvr_reference_region h) as Hpe.
  apply generate_contrast_dataset_inv in H
    as [(e & Hp & ->)|(cd & df & ft & ev0 & Hp & [(e & ev1 & Hpar & -> & ->)|
                                                  (res & ev1 & ev2 & Hpar & Hs & ->)])];
    rewrite Hp in Hpe; simpl in Hpe.
  - split; [eauto|intros p m Hin].
    destruct (In_Forall_inv _ _ _ Hpe Hin) as [Hw|Hw]; discriminate.
  - pose proof (Parallel_emits E _ _ n_proc _
                  (contrast_tasks_emits E _ output_dir preprocessing gamma cd df ft
                     (fun i => create_contrast_image_emits_images E _ _ _ _ _ _ i []))
                  (h ++ ev0)) as Hje.
    rewrite Hpar in Hje; simpl in Hje.
    split; [eauto|intros p m Hin].
    apply in_app_or in Hin as [Hin|Hin];
      [destruct (In_Forall_inv _ _ _ Hpe Hin) as [Hw|Hw]
      |destruct (In_Forall_inv _ _ _ Hje Hin) as [Hw|Hw]]; discriminate.
  - pose proof (Parallel_emits E _ _ n_proc _
                  (contrast_tasks_emits E _ output_dir preprocessing gamma cd df ft
                     (fun i => create_contrast_image_emits_images E _ _ _ _ _ _ i []))
                  (h ++ ev0)) as Hje.
    rewrite Hpar in Hje; simpl in Hje.
    apply gcd_suffix_cases in Hs as [(-> & q & ->)|[(-> & q & ->)|(-> & ->)]];
      (split; [eauto|intros p m Hin]); try reflexivity;
      (apply in_app_or in Hin as [Hin|Hin];
       [destruct (In_Forall_inv _ _ _ Hpe Hin) as [Hw|Hw]; discriminate|]);
      (apply in_app_or in Hin as [Hin|Hin];
       [destruct (In_Forall_inv _ _ _ Hje Hin) as [Hw|Hw]; discriminate|]);
      simpl in Hin; repeat (destruct Hin as [Hin|Hin]; [discriminate|]); destruct Hin.
Qed.

(** ** Where the run writes *)

Definition rows_plain (data_df : list in_row) : Prop :=
  Forall (fun r => plain (participant_id r) && plain (session_id r) = true) data_df.

Lemma plain_not_in s : plain s = true -> not_in "/" s = true.
Proof. unfold plain; intros H; apply andb_prop in H as [H _]; exact H. Qed.

Lemma image_dir_under output_dir pid sid preprocessing subject_id :
  plain pid = true -> plain sid = true -> plain preprocessing = true ->
  nth_error (split_on "-" pid) 1 = Some subject_id ->
  under output_dir (div (div (div (div output_dir "subjects") ("sub-CONT" ++ subject_id)%string)
                             sid) preprocessing).
Proof.
  intros Hp Hs Hpre Hsub.
  assert (Hsl : not_in "/" subject_id = true).
  { apply nth_error_In in Hsub.
    exact (proj1 (Forall_forall _ _) (split_on_pieces "-" "/" pid (plain_not_in _ Hp)) _ Hsub). }
  repeat apply under_div; auto using under_refl, plain_sub_cont.
Qed.

Lemma Forall_skipn {X} (P : X -> Prop) n l : Forall P l -> Forall P (skipn n l).
Proof.
  revert l; induction n as [|n IH]; intros l Hl; [exact Hl|].
  destruct Hl as [|x xs _ Hxs]; [constructor|exact (IH _ Hxs)].
Qed.

Lemma image_file_plain subject_id sid image_file :
  not_in "/" subject_id = true -> plain sid = true ->
  plain ("sub-CONT" ++ subject_id ++ "_" ++ sid ++ "_"
         ++ join "_" (skipn 2 (split_on "_" (name (Path_of_string image_file)))))%string = true.
Proof.
  intros Hsub Hs. apply plain_sub_cont.
  rewrite !not_in_app, Hsub, (plain_not_in _ Hs). cbn [not_in andb negb Ascii.eqb].
  apply not_in_join; [reflexivity|].
  apply Forall_skipn, split_on_pieces, name_no_slash.
Qed.

(** An ancestor of a path in the tree of [out] is in that tree too, or is an
    ancestor of [out]. *)
Lemma ancestors_under out p q :
  under out p -> In q (ancestors p) -> under out q \/ In q (ancestors out).
Proof.
  intros [Ha (rest & Hp & Hrest)] Hq.
  unfold ancestors in Hq; apply in_map_iff in Hq as (k & <- & Hk); apply in_seq in Hk.
  rewrite Ha, Hp, firstn_app.
  destruct (Nat.ltb_spec k (length (parts out))) as [Hlt|Hge].
  - right. replace (k - length (parts out)) with 0 by lia. rewrite firstn_O, app_nil_r.
    unfold ancestors; apply in_map_iff; exists k; split; [reflexivity|apply in_seq; lia].
  - left. rewrite firstn_all2 by lia. split; [reflexivity|].
    exists (firstn (k - length (parts out)) rest); split; [reflexivity|].
    intros Hin; apply Hrest. rewrite <- (firstn_skipn (k - length (parts out)) rest).
    apply in_or_app; left; exact Hin.
Qed.

Lemma dir_chain_under out p q :
  under out p -> In q (dir_chain p) -> under out q \/ In q (ancestors out).
Proof.
  intros Hp Hq; apply in_app_or in Hq as [Hq|[<-|[]]];
    [exact (ancestors_under _ _ _ Hp Hq)|left; exact Hp].
Qed.

Section Frame.

Variable E : Env.

(** An event in the tree of [output_dir], or the creation of one of its
    ancestors. *)
Abbreviation out_tree output_dir :=
  (fun e : event (Img E) => under output_dir (event_path e) \/
                            exists q, e = Mkdir q /\ In q (ancestors output_dir)).

Lemma chain_out_tree output_dir p q :
  under output_dir p -> In q (dir_chain p) -> out_tree output_dir (Mkdir q).
Proof.
  intros Hp Hq; destruct (dir_chain_under _ _ _ Hp Hq) as [H|H]; [left; exact H|right; eauto].
Qed.

Lemma create_contrast_image_under output_dir preprocessing gamma caps_dict data_df file_type
    data_idx output_df :
  rows_plain data_df -> plain preprocessing = true ->
  emits (out_tree output_dir)
    (create_contrast_image E output_dir preprocessing gamma caps_dict data_df file_type
       data_idx output_df).
Proof.
  intros Hrows Hpre.
  apply create_contrast_image_emits.
  - intros row subject_id q Hrow Hsub Hq.
    apply nth_error_In in Hrow.
    apply (In_Forall_inv _ _ _ Hrows), andb_prop in Hrow as [Hp Hs].
    eapply chain_out_tree; [|exact Hq].
    apply (image_dir_under _ (participant_id row)); assumption.
  - intros row subject_id image_file img Hrow Hsub.
    apply nth_error_In in Hrow.
    apply (In_Forall_inv _ _ _ Hrows), andb_prop in Hrow as [Hp Hs].
    left; simpl; apply under_div; [apply (image_dir_under _ (participant_id row)); assumption|].
    apply image_file_plain; [|exact Hs].
    apply nth_error_In in Hsub.
    exact (proj1 (Forall_forall _ _) (split_on_pieces "-" "/" _ (plain_not_in _ Hp)) _ Hsub).
Qed.

Lemma gcd_prefix_under caps_directory output_dir tsv_path preprocessing multi_cohort
    uncropped_image tracer suvr_reference_region :
  emits (out_tree output_dir)
    (gcd_prefix E caps_directory output_dir tsv_path preprocessing multi_cohort
       uncropped_image tracer suvr_reference_region).
Proof.
  unfold gcd_prefix, commandline_to_json, load_and_check_tsv; simpl.
  repeat (apply emits_bind; [|intro]);
    first [apply emits_mkdir; intros q Hq; eapply chain_out_tree; [|exact Hq];
           first [apply under_refl|apply under_div; [apply under_refl|reflexivity]]
          | apply emits_save; left; apply under_div; [apply under_refl|reflexivity]
          | auto with emits].
Qed.

Lemma gcd_suffix_under output_dir results_df h r ev :
  gcd_suffix E output_dir results_df h = (r, ev) -> Forall (out_tree output_dir) ev.
Proof.
  intros Hs; apply gcd_suffix_cases in Hs as [(-> & _)|[(-> & _)|(-> & _)]];
    repeat (constructor; [left; apply under_div; solve [apply under_refl|reflexivity]|]);
    constructor.
Qed.

End Frame.

(** * The claims *)

Section Claims.

Variable E : Env.

(** C4: a job that raises (during the file lookup, the image loading, the
    gamma transform or a write) aborts the run: once the setup phase has
    read [data_df], if the pool has run the first [k] tasks of its order
    successfully and the next one, [i], raises [e], then
    [generate_contrast_dataset] raises that same [e] uncaught, and no
    manifest [data.tsv] (no [TsvFile] at all) has been written. *)
Theorem job_failure_aborts_run caps_directory output_dir n_proc tsv_path preprocessing
    multi_cohort uncropped_image tracer suvr_reference_region gamma h caps_dict data_df
    file_type ev0 k rs ev1 i e ev2 :
  gcd_prefix E caps_directory output_dir tsv_path preprocessing multi_cohort
    uncropped_image tracer suvr_reference_region h = (inr (caps_dict, data_df, file_type), ev0) ->
  n_proc <> 0%Z ->
  run_tasks E (firstn k (pool_order E n_proc (length data_df)))
    (map (fun data_idx => create_contrast_image E output_dir preprocessing gamma caps_dict
                            data_df file_type data_idx [])
         (seq 0 (length data_df))) (h ++ ev0) = (inr rs, ev1) ->
  nth_error (pool_order E n_proc (length data_df)) k = Some i ->
  create_contrast_image E output_dir preprocessing gamma caps_dict data_df file_type i []
    ((h ++ ev0) ++ ev1) = (inl e, ev2) ->
  generate_contrast_dataset E caps_directory output_dir n_proc tsv_path preprocessing
    multi_cohort uncropped_image tracer suvr_reference_region gamma h
    = (inl e, ev0 ++ ev1 ++ ev2) /\
  (forall p m, ~ In (Write p (TsvFile m)) (ev0 ++ ev1 ++ ev2)).
Proof.
  intros Hp Hn Hpre Hi Hjob.
  assert (Hlt : (i < length data_df)%nat).
  { apply nth_error_In in Hi.
    apply (Permutation_in _ (pool_order_perm E n_proc (length data_df))), in_seq in Hi; lia. }
  set (tasks := map (fun data_idx => create_contrast_image E output_dir preprocessing gamma
                                       caps_dict data_df file_type data_idx [])
                    (seq 0 (length data_df))) in *.
  assert (Hnth : nth i tasks (raise IndexError) ((h ++ ev0) ++ ev1) = (inl e, ev2)).
  { subst tasks; rewrite nth_map_seq; apply Nat.ltb_lt in Hlt; rewrite Hlt; exact Hjob. }
  assert (Hrun := run_tasks_inl E _ k _ tasks _ _ _ _ _ _ Hpre Hi Hnth).
  assert (Hpar : Parallel E n_proc tasks (h ++ ev0) = (inl e, ev1 ++ ev2)).
  { unfold Parallel. apply Z.eqb_neq in Hn; rewrite Hn.
    replace (length tasks) with (length data_df)
      by (subst tasks; rewrite length_map, length_seq; reflexivity).
    apply bind_of_inl; exact Hrun. }
  split.
  - unfold generate_contrast_dataset. eapply bind_of_inr; [exact Hp|].
    apply bind_of_inl; exact Hpar.
  - intros p m Hin.
    pose proof (gcd_prefix_emits E caps_directory output_dir tsv_path preprocessing
                  multi_cohort uncropped_image tracer suvr_reference_region h) as Hpe.
    rewrite Hp in Hpe; simpl in Hpe.
    assert (Hall : Forall (fun e => is_write e = false \/ is_image_write e = true) (ev1 ++ ev2)).
    { apply Forall_app; split.
      - pose proof (run_tasks_emits E _ _ (firstn k (pool_order E n_proc (length data_df))) tasks
                      (contrast_tasks_emits E _ output_dir preprocessing gamma caps_dict data_df
                         file_type (fun j => create_contrast_image_emits_images E _ _ _ _ _ _ j []))
                      (h ++ ev0)) as He.
        rewrite Hpre in He; exact He.
      - pose proof (create_contrast_image_emits_images E output_dir preprocessing gamma caps_dict
                      data_df file_type i [] ((h ++ ev0) ++ ev1)) as He.
        rewrite Hjob in He; exact He. }
    apply in_app_or in Hin as [Hin|Hin].
    + destruct (In_Forall_inv _ _ _ Hpe Hin) as [Hw|Hw]; discriminate.
    + destruct (In_Forall_inv _ _ _ Hall Hin) as [Hw|Hw]; discriminate.
Qed.

(** C1: when the run writes its manifest [data.tsv], the manifest has exactly
    as many rows as the subject/session list [data_df] it read, and its rows
    match the input rows one to one (up to order): each input row yields
    exactly one output row. *)
Theorem manifest_one_row_per_input caps_directory output_dir n_proc tsv_path preprocessing
    multi_cohort uncropped_image tracer suvr_reference_region gamma h caps_dict data_df
    file_type ev0 r ev p m :
  gcd_prefix E caps_directory output_dir tsv_path preprocessing multi_cohort
    uncropped_image tracer suvr_reference_region h = (inr (caps_dict, data_df, file_type), ev0) ->
  generate_contrast_dataset E caps_directory output_dir n_proc tsv_path preprocessing
    multi_cohort uncropped_image tracer suvr_reference_region gamma h = (r, ev) ->
  In (Write p (TsvFile m)) ev ->
  length m = length data_df /\
  exists m', Permutation m m' /\ Forall2 contrast_row data_df m'.
Proof.
  intros Hp Hrun Hin.
  destruct (gcd_manifest E _ _ _ _ _ _ _ _ _ _ _ _ _ _ _ Hrun Hin)
    as (cd & df & ft & ev0' & os & Hp' & Hos & -> & _ & _).
  rewrite Hp in Hp'; inversion Hp'; subst.
  split.
  - rewrite length_rev; symmetry; eapply Forall2_length; exact Hos.
  - exists os; split; [apply Permutation_sym, Permutation_rev|exact Hos].
Qed.

(** C5: the manifest does not depend on the worker count: two runs on the
    same inputs and disk (same environment, hence the same random draws)
    that differ only in [n_proc], and so in the order the pool runs the
    jobs, write the same [data.tsv]; and the manifest is written after all
    jobs have completed: before its write the run has written one image per
    manifest row. *)
Theorem manifest_independent_of_n_proc caps_directory output_dir n_proc1 n_proc2 tsv_path
    preprocessing multi_cohort uncropped_image tracer suvr_reference_region gamma h
    r1 ev1 r2 ev2 p1 m1 p2 m2 :
  generate_contrast_dataset E caps_directory output_dir n_proc1 tsv_path preprocessing
    multi_cohort uncropped_image tracer suvr_reference_region gamma h = (r1, ev1) ->
  generate_contrast_dataset E caps_directory output_dir n_proc2 tsv_path preprocessing
    multi_cohort uncropped_image tracer suvr_reference_region gamma h = (r2, ev2) ->
  In (Write p1 (TsvFile m1)) ev1 ->
  In (Write p2 (TsvFile m2)) ev2 ->
  m1 = m2 /\
  exists pre post, ev1 = pre ++ Write p1 (TsvFile m1) :: post /\
                   length (filter is_image_write pre) = length m1.
Proof.
  intros H1 H2 Hin1 Hin2.
  destruct (gcd_manifest E _ _ _ _ _ _ _ _ _ _ _ _ _ _ _ H1 Hin1)
    as (cd & df & ft & ev0 & os1 & Hp1 & Hos1 & -> & _ & pre & post & Hsplit & Hcount).
  destruct (gcd_manifest E _ _ _ _ _ _ _ _ _ _ _ _ _ _ _ H2 Hin2)
    as (cd' & df' & ft' & ev0' & os2 & Hp2 & Hos2 & -> & _ & _).
  rewrite Hp1 in Hp2; injection Hp2 as _ Hdf _ _; subst df'.
  rewrite (contrast_row_functional _ _ _ Hos1 Hos2).
  split; [reflexivity|].
  exists pre, post; split; [rewrite <- (contrast_row_functional _ _ _ Hos1 Hos2); exact Hsplit|].
  rewrite Hcount, length_rev; eapply Forall2_length; exact Hos2.
Qed.

(** C9: every row of the manifest written by the run has diagnosis
    ["contrast"] and a participant_id that starts with ["sub-CONT"]. *)
Theorem manifest_rows_are_contrast caps_directory output_dir n_proc tsv_path preprocessing
    multi_cohort uncropped_image tracer suvr_reference_region gamma h r ev p m :
  generate_contrast_dataset E caps_directory output_dir n_proc tsv_path preprocessing
    multi_cohort uncropped_image tracer suvr_reference_region gamma h = (r, ev) ->
  In (Write p (TsvFile m)) ev ->
  Forall (fun o => out_diagnosis o = "contrast" /\
                   String.prefix "sub-CONT" (out_participant_id o) = true) m.
Proof.
  intros Hrun Hin.
  destruct (gcd_manifest E _ _ _ _ _ _ _ _ _ _ _ _ _ _ _ Hrun Hin)
    as (cd & df & ft & ev0 & os & _ & Hos & -> & _).
  apply Forall_rev. eapply Forall2_Forall_r; [|exact Hos].
  intros x y (sid & _ & ->); split; [reflexivity|destruct sid; reflexivity].
Qed.

(** C10: the manifest lists the rows in the reverse of the input order: its
    [k]-th row comes from the [k]-th row of the reversed subject/session
    list, since the final loop prepends each job's frame. *)
Theorem manifest_reverses_input_order caps_directory output_dir n_proc tsv_path
    preprocessing multi_cohort uncropped_image tracer suvr_reference_region gamma h
    caps_dict data_df file_type ev0 r ev p m :
  gcd_prefix E caps_directory output_dir tsv_path preprocessing multi_cohort
    uncropped_image tracer suvr_reference_region h = (inr (caps_dict, data_df, file_type), ev0) ->
  generate_contrast_dataset E caps_directory output_dir n_proc tsv_path preprocessing
    multi_cohort uncropped_image tracer suvr_reference_region gamma h = (r, ev) ->
  In (Write p (TsvFile m)) ev ->
  Forall2 contrast_row (rev data_df) m.
Proof.
  intros Hp Hrun Hin.
  destruct (gcd_manifest E _ _ _ _ _ _ _ _ _ _ _ _ _ _ _ Hrun Hin)
    as (cd & df & ft & ev0' & os & Hp' & Hos & -> & _).
  rewrite Hp in Hp'; inversion Hp'; subst.
  apply Forall2_rev; exact Hos.
Qed.

(** C6: a run that completes every step of [generate_contrast_dataset] (and
    so reaches the final [logger.info] call, which raises [NameError] since
    [logger] is undefined) has written the JSON record of its parameters,
    created [output_dir/subjects], written one transformed image per row of
    the manifest, the tab-separated manifest [data.tsv] and the
    missing-modalities report. *)
Theorem completed_run_outputs caps_directory output_dir n_proc tsv_path preprocessing
    multi_cohort uncropped_image tracer suvr_reference_region gamma h ev :
  generate_contrast_dataset E caps_directory output_dir n_proc tsv_path preprocessing
    multi_cohort uncropped_image tracer suvr_reference_region gamma h =
    (inl (NameError "logger"), ev) ->
  In (Write (div output_dir "commandline.json")
        (JsonFile [("output_dir", JPath output_dir); ("caps_dir", JPath caps_directory);
                   ("preprocessing", JStr preprocessing)])) ev /\
  In (Mkdir (div output_dir "subjects")) ev /\
  exists m, In (Write (div output_dir "data.tsv") (TsvFile m)) ev /\
            In (Write (div output_dir "missing_mods.tsv") (MissingModsFile m)) ev /\
            length (filter is_image_write ev) = length m.
Proof.
  intros H.
  apply generate_contrast_dataset_inv in H
    as [(e & Hp & He)|(cd & df & ft & ev0 & Hp & [(e & ev1 & Hpar & He & ->)|
                                                  (res & ev1 & ev2 & Hpar & Hs & ->)])].
  - injection He as <-.
    pose proof (gcd_prefix_nne E _ _ _ _ _ _ _ _ _ _ _ Hp) as Hn; discriminate Hn.
  - injection He as <-.
    assert (Hall : Forall (raises_only nne)
                     (map (fun data_idx => create_contrast_image E output_dir preprocessing
                                             gamma cd df ft data_idx [])
                          (seq 0 (length df))))
      by (apply Forall_map, Forall_forall; intros; apply create_contrast_image_nne).
    pose proof (Parallel_nne E _ _ Hall _ _ _ Hpar) as Hn; discriminate Hn.
  - destruct (contrast_pool_inr _ _ _ _ _ _ _ _ _ _ _ Hpar) as [(os & -> & Hos) Hcount].
    apply gcd_suffix_cases in Hs; rewrite fold_prepend, app_nil_r in Hs.
    pose proof (gcd_prefix_inr _ _ _ _ _ _ _ _ _ _ _ _ Hp) as Hev0.
    pose proof (gcd_prefix_no_image _ _ _ _ _ _ _ _ _ _ _ _ Hp) as Hni.
    destruct Hs as [(_ & p & [=])|[(_ & p & [=])|(-> & _)]].
    split; [|split].
    + apply in_or_app; left; rewrite Hev0; apply in_or_app; right; left; reflexivity.
    + apply in_or_app; left; rewrite Hev0; apply in_or_app; right; right.
      apply in_map; apply in_or_app; right; left; reflexivity.
    + exists (rev os); split; [|split].
      * apply in_or_app; right; apply in_or_app; right; left; reflexivity.
      * apply in_or_app; right; apply in_or_app; right; right; left; reflexivity.
      * rewrite !filter_app, !length_app, Hni, Hcount, length_rev.
        rewrite (Forall2_length Hos); simpl; lia.
Qed.


(** C2 (amended): the job of a row that completes writes its image in its
    directory under the name ["sub-CONT<id>_<session>_<suffix>"], where
    [<id>] is the second hyphen-separated field of [participant_id]
    ([participant_id.split("-")[1]]), [<session>] is the row's session_id and
    [<suffix>] is the file name of the first image clinica finds for the row,
    without its first two underscore-separated fields. *)
Theorem contrast_filename_second_field output_dir preprocessing gamma caps_dict data_df
    file_type data_idx output_df h res ev row :
  create_contrast_image E output_dir preprocessing gamma caps_dict data_df file_type
    data_idx output_df h = (inr res, ev) ->
  nth_error data_df data_idx = Some row ->
  exists caps_dir found image_file subject_id img,
    caps_dict (cohort row) = Some caps_dir /\
    clinica_file_reader E h [participant_id row] [session_id row] caps_dir file_type
      = inr found /\
    nth_error (fst found) 0 = Some image_file /\
    nth_error (split_on "-" (participant_id row)) 1 = Some subject_id /\
    let dir := div (div (div (div output_dir "subjects") ("sub-CONT" ++ subject_id)%string)
                        (session_id row)) preprocessing in
    In (Write (div dir ("sub-CONT" ++ subject_id ++ "_" ++ session_id row ++ "_"
                        ++ join "_" (skipn 2 (split_on "_"
                                       (name (Path_of_string image_file)))))%string)
              (NiftiFile img)) ev.
Proof.
  intros H Hrow.
  apply create_contrast_image_inr in H.
  destruct H as (row' & cd & found & img_f & sid & g0 & g1 & tr & im & ci &
                 Hrow' & Hcd & Hf & Himg & Hsid & _ & _ & _ & _ & _ & -> & _).
  rewrite Hrow in Hrow'; injection Hrow' as <-.
  exists cd, found, img_f, sid, ci.
  repeat (split; [assumption|]). apply in_or_app; right; left; reflexivity.
Qed.

(** C8 (amended): every file the run writes lies in the tree of
    [output_dir], and so does every directory it makes, except the
    ancestors of [output_dir] itself, which the [mkdir(parents=True)] calls
    create when they are missing; this holds provided [preprocessing] and
    the participant and session identifiers read from the subject list are
    single path components (no ["/"], not [".."]). Nothing checks that
    [output_dir] lies outside [caps_directory]. *)
Theorem writes_stay_under_output_dir caps_directory output_dir n_proc tsv_path preprocessing
    multi_cohort uncropped_image tracer suvr_reference_region gamma h r ev :
  (forall caps_dict data_df file_type ev0,
     gcd_prefix E caps_directory output_dir tsv_path preprocessing multi_cohort
       uncropped_image tracer suvr_reference_region h
       = (inr (caps_dict, data_df, file_type), ev0) ->
     rows_plain data_df) ->
  plain preprocessing = true ->
  generate_contrast_dataset E caps_directory output_dir n_proc tsv_path preprocessing
    multi_cohort uncropped_image tracer suvr_reference_region gamma h = (r, ev) ->
  Forall (fun e => under output_dir (event_path e) \/
                   exists q, e = Mkdir q /\ In q (ancestors output_dir)) ev.
Proof.
  intros Hrows Hpre H.
  pose proof (gcd_prefix_under E caps_directory output_dir tsv_path preprocessing
                multi_cohort uncropped_image tracer suvr_reference_region h) as Hpu.
  apply generate_contrast_dataset_inv in H
    as [(e & Hp & _)|(cd & df & ft & ev0 & Hp & [(e & ev1 & Hpar & _ & ->)|
                                                 (res & ev1 & ev2 & Hpar & Hs & ->)])];
    rewrite Hp in Hpu; [exact Hpu| |];
    (assert (Hpool := Parallel_emits E _ _ n_proc _
                        (contrast_tasks_emits E _ output_dir preprocessing gamma cd df ft
                           (fun i => create_contrast_image_under E _ _ _ _ _ _ i []
                                       (Hrows _ _ _ _ Hp) Hpre))
                        (h ++ ev0));
     rewrite Hpar in Hpool; apply Forall_app; split; [exact Hpu|]).
  - exact Hpool.
  - apply Forall_app; split; [exact Hpool|].
    eapply gcd_suffix_under; exact Hs.
Qed.

End Claims.

(** * Edge behaviour of the run *)

(** Computations that agree at every history. *)
Lemma bind_ext {Ev A B} (m1 m2 : M Ev A) (k1 k2 : A -> M Ev B) :
  (forall h, m1 h = m2 h) -> (forall a h, k1 a h = k2 a h) ->
  forall h, bind m1 k1 h = bind m2 k2 h.
Proof.
  intros Hm Hk h; unfold bind; rewrite Hm.
  destruct (m2 h) as [[e|a] ev]; [reflexivity|rewrite Hk; reflexivity].
Qed.

Section Edges.

Variable E : Env.

Lemma run_tasks_ext {A} order (tasks1 tasks2 : list (M (event (Img E)) A)) :
  (forall k h, nth k tasks1 (raise IndexError) h = nth k tasks2 (raise IndexError) h) ->
  forall h, run_tasks E order tasks1 h = run_tasks E order tasks2 h.
Proof.
  intros Ht; induction order as [|k rest IH]; intros h; simpl; [reflexivity|].
  apply bind_ext; [apply Ht|intros a h'; apply bind_ext; [apply IH|reflexivity]].
Qed.

Lemma Parallel_map_seq_ext {A} n_jobs n (f g : nat -> M (event (Img E)) A) :
  (forall i h, i < n -> f i h = g i h) ->
  forall h, Parallel E n_jobs (map f (seq 0 n)) h = Parallel E n_jobs (map g (seq 0 n)) h.
Proof.
  intros Hfg h; unfold Parallel; rewrite !length_map, !length_seq.
  destruct (Z.eqb n_jobs 0); [reflexivity|].
  apply bind_ext; [|reflexivity].
  apply run_tasks_ext; intros k h'; rewrite !nth_map_seq.
  destruct (Nat.ltb_spec k n); [apply Hfg; assumption|reflexivity].
Qed.

Lemma create_contrast_image_gamma_ext output_dir preprocessing gamma1 gamma2 caps_dict
    data_df file_type data_idx output_df h :
  nth_error gamma1 0 = nth_error gamma2 0 -> nth_error gamma1 1 = nth_error gamma2 1 ->
  create_contrast_image E output_dir preprocessing gamma1 caps_dict data_df file_type
    data_idx output_df h =
  create_contrast_image E output_dir preprocessing gamma2 caps_dict data_df file_type
    data_idx output_df h.
Proof. intros H0 H1; unfold create_contrast_image, getitem; rewrite H0, H1; reflexivity. Qed.


Lemma silent_loc data_df data_idx : silent (loc E data_df data_idx).
Proof. intros h; unfold loc; destruct (nth_error data_df data_idx); reflexivity. Qed.

Lemma silent_dict_get d k : silent (dict_get E d k).
Proof. intros h; unfold dict_get; destruct (d k); reflexivity. Qed.

(** With fewer than two gamma values a job always raises: either it fails
    before making its image directory, emitting nothing; or [mkdir] is
    refused with [OSError] partway through the directory's chain; or it
    makes the whole chain and raises [IndexError] at [gamma[0]] or
    [gamma[1]]. *)
Lemma create_contrast_image_short_gamma_fate output_dir preprocessing gamma caps_dict data_df
    file_type data_idx output_df h r ev :
  length gamma < 2 ->
  create_contrast_image E output_dir preprocessing gamma caps_dict data_df file_type
    data_idx output_df h = (r, ev) ->
  exists e, r = inl e /\
    (ev = [] \/
     exists row subject_id,
       nth_error data_df data_idx = Some row /\
       nth_error (split_on "-" (participant_id row)) 1 = Some subject_id /\
       let dir := div (div (div (div output_dir "subjects") ("sub-CONT" ++ subject_id)%string)
                           (session_id row)) preprocessing in
       Forall (fun x => exists q, x = Mkdir q /\ In q (dir_chain dir)) ev /\
       ((exists q, e = OSError q) \/ (e = IndexError /\ ev = map Mkdir (dir_chain dir)))).
Proof.
  intros Hg H. assert (Hg1 : nth_error gamma 1 = None) by (apply nth_error_None; lia).
  unfold create_contrast_image in H; cbv zeta in H.
  destruct (bind_silent _ _ _ _ _ (silent_loc _ _) H) as [(e & _ & -> & ->)|(row & Hrow & H')];
    [eauto|clear H; rename H' into H].
  unfold loc, ret, raise in Hrow;
    destruct (nth_error data_df data_idx) as [row'|] eqn:Hrow'; inversion Hrow; subst; clear Hrow.
  destruct (bind_silent _ _ _ _ _ (silent_dict_get _ _) H) as [(e & _ & -> & ->)|(cd & _ & H')];
    [eauto|clear H; rename H' into H].
  destruct (bind_silent _ _ _ _ _ (silent_lib_read _) H) as [(e & _ & -> & ->)|(found & _ & H')];
    [eauto|clear H; rename H' into H].
  destruct (bind_silent _ _ _ _ _ (silent_getitem _ _) H) as [(e & _ & -> & ->)|(img_f & _ & H')];
    [eauto|clear H; rename H' into H].
  destruct (bind_silent _ _ _ _ _ (silent_getitem _ _) H) as [(e & _ & -> & ->)|(sid & Hsid & H')];
    [eauto|clear H; rename H' into H].
  unfold getitem, ret, raise in Hsid;
    destruct (nth_error (split_on "-" (participant_id row)) 1) as [sid'|] eqn:Hsid';
    inversion Hsid; subst; clear Hsid.
  apply bind_inv in H as [(e & Hm & ->)|(u & ev1 & ev2 & Hm & H & ->)].
  - destruct (mkdirs_inl _ _ _ _ _ Hm) as [Hq Hf].
    exists e; split; [reflexivity|right; exists row, sid; split; [reflexivity|split; [exact Hsid'|]]].
    cbv zeta; split; [exact Hf|left; exact Hq].
  - apply mkdir_inr in Hm; subst ev1.
    unfold getitem in H; rewrite Hg1 in H; destruct (nth_error gamma 0);
      cbv [bind ret raise app] in H; inversion H; subst; clear H;
      exists IndexError; (split; [reflexivity|right; exists row, sid]);
      (split; [reflexivity|split; [exact Hsid'|]]); cbv zeta; rewrite app_nil_r;
      (split; [apply Forall_map_Mkdir|right; split; reflexivity]).
Qed.

(** With fewer than two gamma values every job raises, and writes no file. *)
Lemma create_contrast_image_short_gamma output_dir preprocessing gamma caps_dict data_df
    file_type data_idx output_df h r ev :
  length gamma < 2 ->
  create_contrast_image E output_dir preprocessing gamma caps_dict data_df file_type
    data_idx output_df h = (r, ev) ->
  (exists e, r = inl e) /\ Forall (fun x => is_write x = false) ev.
Proof.
  intros Hg H. destruct r as [e|res].
  - split; [eauto|]. eapply create_contrast_image_no_write_on_fail; exact H.
  - apply create_contrast_image_inr in H.
    destruct H as (row & cd & found & img_f & sid & g0 & g1 & tr & im & ci &
                   _ & _ & _ & _ & _ & _ & Hg1 & _).
    assert (Hlt : 1 < length gamma) by (apply nth_error_Some; congruence). lia.
Qed.

Lemma run_tasks_all_fail {A} order (tasks : list (M (event (Img E)) A)) :
  order <> [] ->
  (forall k h r ev, nth k tasks (raise IndexError) h = (r, ev) ->
                    (exists e, r = inl e) /\ Forall (fun x => is_write x = false) ev) ->
  forall h r ev, run_tasks E order tasks h = (r, ev) ->
                 (exists e, r = inl e) /\ Forall (fun x => is_write x = false) ev.
Proof.
  intros Hne Hall h r ev H. destruct order as [|k rest]; [contradiction|simpl in H].
  apply bind_inv in H as [(e & He & ->)|(a & ev1 & ev2 & Ha & _ & _)].
  - destruct (Hall _ _ _ _ He) as [_ Hw]; eauto.
  - destruct (Hall _ _ _ _ Ha) as [(e & [=]) _].
Qed.

Lemma Parallel_all_fail {A} n_jobs (tasks : list (M (event (Img E)) A)) h r ev :
  tasks <> [] ->
  (forall k h r ev, nth k tasks (raise IndexError) h = (r, ev) ->
                    (exists e, r = inl e) /\ Forall (fun x => is_write x = false) ev) ->
  Parallel E n_jobs tasks h = (r, ev) ->
  (exists e, r = inl e) /\ Forall (fun x => is_write x = false) ev.
Proof.
  intros Hne Hall H; unfold Parallel in H.
  destruct (Z.eqb n_jobs 0); [unfold raise in H; inversion H; subst; eauto|].
  apply bind_inv in H as [(e & He & ->)|(a & ev1 & ev2 & Ha & _ & _)].
  - assert (Hord : pool_order E n_jobs (length tasks) <> []).
    { intros Hnil. pose proof (pool_order_perm E n_jobs (length tasks)) as Hp.
      rewrite Hnil in Hp; apply Permutation_nil in Hp.
      destruct tasks; [contradiction|discriminate]. }
    destruct (run_tasks_all_fail _ _ Hord Hall _ _ _ He) as [_ Hw]; eauto.
  - assert (Hord : pool_order E n_jobs (length tasks) <> []).
    { intros Hnil. pose proof (pool_order_perm E n_jobs (length tasks)) as Hp.
      rewrite Hnil in Hp; apply Permutation_nil in Hp.
      destruct tasks; [contradiction|discriminate]. }
    destruct (run_tasks_all_fail _ _ Hord Hall _ _ _ Ha) as [(e & [=]) _].
Qed.

(** A job whose participant_id holds no hyphen raises [IndexError] on
    [participant_id.split("-")[1]], before creating any directory. *)
Theorem job_participant_without_hyphen output_dir preprocessing gamma caps_dict data_df
    file_type data_idx output_df h row caps_dir image_file files msg :
  nth_error data_df data_idx = Some row -> caps_dict (cohort row) = Some caps_dir ->
  clinica_file_reader E h [participant_id row] [session_id row] caps_dir file_type
    = inr (image_file :: files, msg) ->
  not_in "-" (participant_id row) = true ->
  create_contrast_image E output_dir preprocessing gamma caps_dict data_df file_type
    data_idx output_df h = (inl IndexError, []).
Proof.
  intros Hrow Hcd Hf Hpid.
  cbv [create_contrast_image bind loc dict_get ret raise lib_read getitem]; rewrite Hrow;
    cbn beta iota.
  rewrite Hcd; cbn beta iota. rewrite !app_nil_r, Hf; cbn beta iota.
  rewrite (split_on_not_in _ _ Hpid); reflexivity.
Qed.

(** With an empty subject list no job runs: the run raises, and after the
    setup it writes nothing but, first, an empty [data.tsv] (unless that
    write is refused), and no image. *)
Theorem run_with_no_subjects caps_directory output_dir n_proc tsv_path preprocessing
    multi_cohort uncropped_image tracer suvr_reference_region gamma h caps_dict file_type ev0
    r ev :
  gcd_prefix E caps_directory output_dir tsv_path preprocessing multi_cohort
    uncropped_image tracer suvr_reference_region h = (inr (caps_dict, [], file_type), ev0) ->
  n_proc <> 0%Z ->
  generate_contrast_dataset E caps_directory output_dir n_proc tsv_path preprocessing
    multi_cohort uncropped_image tracer suvr_reference_region gamma h = (r, ev) ->
  (exists e, r = inl e) /\
  exists ev2, ev = ev0 ++ ev2 /\
    (ev2 = [] \/
     exists rest, ev2 = Write (div output_dir "data.tsv") (TsvFile []) :: rest /\
                  filter is_image_write rest = []).
Proof.
  intros Hp Hn H.
  apply generate_contrast_dataset_inv in H
    as [(e & Hp' & _)|(cd & df & ft & ev0' & Hp' & Hrest)];
    rewrite Hp in Hp'; [discriminate|injection Hp' as <- <- <- <-].
  assert (Hpar : Parallel E n_proc (A := list out_row) [] (h ++ ev0) = (inr [], [])).
  { unfold Parallel; apply Z.eqb_neq in Hn; rewrite Hn; simpl.
    pose proof (pool_order_perm E n_proc 0) as Hperm; simpl in Hperm.
    apply Permutation_sym, Permutation_nil in Hperm; rewrite Hperm; reflexivity. }
  cbv zeta in Hrest; simpl in Hrest.
  destruct Hrest as [(e & ev1 & Hpar' & _)|(res & ev1 & ev2 & Hpar' & Hs & ->)];
    rewrite Hpar in Hpar'; [discriminate|injection Hpar' as <- <-].
  apply gcd_suffix_cases in Hs; simpl in Hs.
  destruct Hs as [(-> & p & ->)|[(-> & p & ->)|(-> & ->)]];
    (split; [eauto|eexists; split; [reflexivity|]]); simpl; eauto.
Qed.

(** With fewer than two gamma values every job raises: [IndexError] at
    [gamma[0]] or [gamma[1]] once it has made its image directory, or an
    earlier failure, after which it has made at most part of that
    directory's chain ([OSError] from [mkdir]) or nothing at all. With a
    non-empty subject list the run then raises once the setup is done, and
    every later event makes some row's image directory or one of its
    ancestors: no file is written, no image and no manifest. *)
Theorem run_with_short_gamma caps_directory output_dir n_proc tsv_path preprocessing
    multi_cohort uncropped_image tracer suvr_reference_region gamma h caps_dict data_df
    file_type ev0 r ev :
  gcd_prefix E caps_directory output_dir tsv_path preprocessing multi_cohort
    uncropped_image tracer suvr_reference_region h = (inr (caps_dict, data_df, file_type), ev0) ->
  data_df <> [] ->
  length gamma < 2 ->
  generate_contrast_dataset E caps_directory output_dir n_proc tsv_path preprocessing
    multi_cohort uncropped_image tracer suvr_reference_region gamma h = (r, ev) ->
  (forall data_idx h' r' ev',
     create_contrast_image E output_dir preprocessing gamma caps_dict data_df file_type
       data_idx [] h' = (r', ev') ->
     exists e, r' = inl e /\
       (ev' = [] \/
        exists row subject_id,
          nth_error data_df data_idx = Some row /\
          nth_error (split_on "-" (participant_id row)) 1 = Some subject_id /\
          let dir := div (div (div (div output_dir "subjects")
                                   ("sub-CONT" ++ subject_id)%string)
                              (session_id row)) preprocessing in
          Forall (fun x => exists q, x = Mkdir q /\ In q (dir_chain dir)) ev' /\
          ((exists q, e = OSError q) \/ (e = IndexError /\ ev' = map Mkdir (dir_chain dir))))) /\
  (exists e, r = inl e) /\
  exists ev1, ev = ev0 ++ ev1 /\
    Forall (fun x => exists row subject_id q,
                In row data_df /\
                nth_error (split_on "-" (participant_id row)) 1 = Some subject_id /\
                x = Mkdir q /\
                In q (dir_chain (div (div (div (div output_dir "subjects")
                                               ("sub-CONT" ++ subject_id)%string)
                                          (session_id row)) preprocessing))) ev1.
Proof.
  intros Hp Hne Hg H.
  split; [intros; eapply create_contrast_image_short_gamma_fate; eassumption|].
  apply generate_contrast_dataset_inv in H
    as [(e & Hp' & _)|(cd & df & ft & ev0' & Hp' & Hrest)];
    rewrite Hp in Hp'; [discriminate|injection Hp' as <- <- <- <-].
  assert (Hall : forall k h' r' ev',
            nth k (map (fun data_idx => create_contrast_image E output_dir preprocessing gamma
                                          caps_dict data_df file_type data_idx [])
                       (seq 0 (length data_df))) (raise IndexError) h' = (r', ev') ->
            (exists e, r' = inl e) /\ Forall (fun x => is_write x = false) ev').
  { intros k h' r' ev' Hk; rewrite nth_map_seq in Hk.
    destruct (Nat.ltb k (length data_df)).
    - eapply create_contrast_image_short_gamma; eassumption.
    - unfold raise in Hk; inversion Hk; subst; eauto. }
  assert (Htne : map (fun data_idx => create_contrast_image E output_dir preprocessing gamma
                                        caps_dict data_df file_type data_idx [])
                     (seq 0 (length data_df)) <> []).
  { destruct data_df; [contradiction|discriminate]. }
  pose proof (Parallel_emits E _ _ n_proc _
                (contrast_tasks_emits E
                   (fun x => is_write x = true \/
                             exists row subject_id q,
                               In row data_df /\
                               nth_error (split_on "-" (participant_id row)) 1 = Some subject_id /\
                               x = Mkdir q /\
                               In q (dir_chain (div (div (div (div output_dir "subjects")
                                                              ("sub-CONT" ++ subject_id)%string)
                                                         (session_id row)) preprocessing)))
                   output_dir preprocessing gamma caps_dict data_df file_type
                   (fun i => create_contrast_image_emits E _ _ _ _ _ _ _ i []
                               (fun row sid q Hrow Hsid Hq =>
                                  or_intror (ex_intro _ row (ex_intro _ sid (ex_intro _ q
                                    (conj (nth_error_In _ _ Hrow) (conj Hsid (conj eq_refl Hq)))))))
                               (fun _ _ _ _ _ _ => or_introl eq_refl)))
                (h ++ ev0)) as Hje.
  destruct Hrest as [(e & ev1 & Hpar & -> & ->)|(res & ev1 & ev2 & Hpar & _)].
  - destruct (Parallel_all_fail _ _ _ _ _ Htne Hall Hpar) as [_ Hw].
    rewrite Hpar in Hje; simpl in Hje.
    split; [eauto|exists ev1; split; [reflexivity|]].
    apply Forall_forall; intros x Hx.
    destruct (In_Forall_inv _ _ _ Hje Hx) as [Hwx|Hx']; [|exact Hx'].
    rewrite (In_Forall_inv _ _ _ Hw Hx) in Hwx; discriminate.
  - destruct (Parallel_all_fail _ _ _ _ _ Htne Hall Hpar) as [(e & [=]) _].
Qed.

(** Only [gamma[0]] and [gamma[1]] are read: two runs whose gamma lists agree
    at those two positions (extra values, which the [--gamma] option
    accepts, are ignored) raise the same result and write the same files. *)
Theorem run_depends_on_two_gamma_values caps_directory output_dir n_proc tsv_path
    preprocessing multi_cohort uncropped_image tracer suvr_reference_region gamma1 gamma2 h :
  nth_error gamma1 0 = nth_error gamma2 0 -> nth_error gamma1 1 = nth_error gamma2 1 ->
  generate_contrast_dataset E caps_directory output_dir n_proc tsv_path preprocessing
    multi_cohort uncropped_image tracer suvr_reference_region gamma1 h =
  generate_contrast_dataset E caps_directory output_dir n_proc tsv_path preprocessing
    multi_cohort uncropped_image tracer suvr_reference_region gamma2 h.
Proof.
  intros H0 H1; unfold generate_contrast_dataset.
  apply bind_ext; [reflexivity|intros [[cd df] ft] h'].
  apply bind_ext; [|reflexivity].
  apply Parallel_map_seq_ext; intros i h'' _.
  apply create_contrast_image_gamma_ext; assumption.
Qed.


(** Two rows whose participant_ids share their second hyphen-separated field,
    with the same session and input images whose names share their suffix
    after the first two underscore fields, collide: their jobs write the
    same image path (the later one overwrites the earlier) and return the
    same manifest row. *)
Theorem jobs_collide_on_second_field output_dir preprocessing gamma caps_dict data_df
    file_type i j h1 h2 res1 res2 ev1 ev2 row1 row2 caps_dir1 caps_dir2 f1 fs1 m1 f2 fs2 m2 :
  nth_error data_df i = Some row1 -> nth_error data_df j = Some row2 ->
  nth_error (split_on "-" (participant_id row1)) 1 =
    nth_error (split_on "-" (participant_id row2)) 1 ->
  session_id row1 = session_id row2 ->
  caps_dict (cohort row1) = Some caps_dir1 -> caps_dict (cohort row2) = Some caps_dir2 ->
  clinica_file_reader E h1 [participant_id row1] [session_id row1] caps_dir1 file_type
    = inr (f1 :: fs1, m1) ->
  clinica_file_reader E h2 [participant_id row2] [session_id row2] caps_dir2 file_type
    = inr (f2 :: fs2, m2) ->
  skipn 2 (split_on "_" (name (Path_of_string f1))) =
    skipn 2 (split_on "_" (name (Path_of_string f2))) ->
  create_contrast_image E output_dir preprocessing gamma caps_dict data_df file_type i [] h1
    = (inr res1, ev1) ->
  create_contrast_image E output_dir preprocessing gamma caps_dict data_df file_type j [] h2
    = (inr res2, ev2) ->
  res1 = res2 /\
  forall p1 img1 p2 img2, In (Write p1 (NiftiFile img1)) ev1 ->
                          In (Write p2 (NiftiFile img2)) ev2 -> p1 = p2.
Proof.
  intros Hr1 Hr2 Hsid Hses Hc1 Hc2 Hf1 Hf2 Hsuf H1 H2.
  apply create_contrast_image_inr in H1
    as (r1 & cd1 & fd1 & if1 & s1 & g0 & g1 & tr1 & im1 & ci1 &
        Hr1' & Hc1' & Hf1' & Hi1 & Hs1 & _ & _ & _ & _ & _ & -> & ->).
  apply create_contrast_image_inr in H2
    as (r2 & cd2 & fd2 & if2 & s2 & g0' & g1' & tr2 & im2 & ci2 &
        Hr2' & Hc2' & Hf2' & Hi2 & Hs2 & _ & _ & _ & _ & _ & -> & ->).
  rewrite Hr1 in Hr1'; injection Hr1' as <-.
  rewrite Hr2 in Hr2'; injection Hr2' as <-.
  rewrite Hc1 in Hc1'; injection Hc1' as <-.
  rewrite Hc2 in Hc2'; injection Hc2' as <-.
  rewrite Hf1 in Hf1'; injection Hf1' as <-.
  rewrite Hf2 in Hf2'; injection Hf2' as <-.
  simpl in Hi1, Hi2; injection Hi1 as <-; injection Hi2 as <-.
  rewrite Hsid, Hs2 in Hs1; injection Hs1 as ->.
  split; [rewrite Hses; reflexivity|].
  intros p1 img1 p2 img2 Hin1 Hin2. rewrite Hsuf, Hses in Hin1.
  apply In_write_after_chain in Hin1; injection Hin1 as -> _.
  apply In_write_after_chain in Hin2; injection Hin2 as -> _.
  reflexivity.
Qed.

End Edges.

(** * Witnesses and counterexamples on the concrete environment *)

Lemma job_failure_aborts_run_witness :
  generate_contrast_dataset (test_env rows2 true) caps0 out0 1 None "t1-linear" false false
    "fdg" "pons" gamma0 []
    = (inl (LibError 1), snd (prefix_test rows2 true) ++ [] ++ []) /\
  (forall p m, ~ In (Write p (TsvFile m)) (snd (prefix_test rows2 true) ++ [] ++ [])).
Proof.
  apply (job_failure_aborts_run (test_env rows2 true) caps0 out0 1 None "t1-linear" false false
           "fdg" "pons" gamma0 [] (fun _ => Some caps0) rows2 tt (snd (prefix_test rows2 true))
           0 [] [] 0 (LibError 1) []);
    [vm_compute; reflexivity|lia|vm_compute; reflexivity|vm_compute; reflexivity
    |vm_compute; reflexivity].
Defined.

Lemma manifest_one_row_per_input_witness :
  length manifest2 = length rows2 /\
  exists m', Permutation manifest2 m' /\ Forall2 contrast_row rows2 m'.
Proof.
  apply (manifest_one_row_per_input (test_env rows2 false) caps0 out0 1 None "t1-linear" false
           false "fdg" "pons" gamma0 [] (fun _ => Some caps0) rows2 tt
           (snd (prefix_test rows2 false)) (fst (run_test rows2 false 1 gamma0))
           (snd (run_test rows2 false 1 gamma0)) (div out0 "data.tsv") manifest2);
    [vm_compute; reflexivity|vm_compute; reflexivity|].
  vm_compute; repeat (first [left; reflexivity|right]).
Defined.

(** One worker runs the jobs of [rows2] in index order, four run them in
    the reverse order: the events differ, the manifests do not. *)
Lemma manifest_independent_of_n_proc_witness :
  snd (run_pool 1) <> snd (run_pool 4) /\
  manifest2 = manifest2 /\
  exists pre post, snd (run_pool 1)
                     = pre ++ Write (div out0 "data.tsv") (TsvFile manifest2) :: post /\
                   length (filter is_image_write pre) = length manifest2.
Proof.
  split; [vm_compute; discriminate|].
  apply (manifest_independent_of_n_proc (test_env_pool rows2) caps0 out0 1 4 None "t1-linear"
           false false "fdg" "pons" gamma0 []
           (fst (run_pool 1)) (snd (run_pool 1)) (fst (run_pool 4)) (snd (run_pool 4))
           (div out0 "data.tsv") manifest2 (div out0 "data.tsv") manifest2);
    [vm_compute; reflexivity|vm_compute; reflexivity| |];
    vm_compute; repeat (first [left; reflexivity|right]).
Defined.

Lemma manifest_rows_are_contrast_witness :
  Forall (fun o => out_diagnosis o = "contrast" /\
                   String.prefix "sub-CONT" (out_participant_id o) = true) manifest2.
Proof.
  apply (manifest_rows_are_contrast (test_env rows2 false) caps0 out0 1 None "t1-linear" false
           false "fdg" "pons" gamma0 [] (fst (run_test rows2 false 1 gamma0))
           (snd (run_test rows2 false 1 gamma0)) (div out0 "data.tsv"));
    [vm_compute; reflexivity|].
  vm_compute; repeat (first [left; reflexivity|right]).
Defined.

Lemma manifest_reverses_input_order_witness : Forall2 contrast_row (rev rows2) manifest2.
Proof.
  apply (manifest_reverses_input_order (test_env rows2 false) caps0 out0 1 None "t1-linear"
           false false "fdg" "pons" gamma0 [] (fun _ => Some caps0) rows2 tt
           (snd (prefix_test rows2 false)) (fst (run_test rows2 false 1 gamma0))
           (snd (run_test rows2 false 1 gamma0)) (div out0 "data.tsv"));
    [vm_compute; reflexivity|vm_compute; reflexivity|].
  vm_compute; repeat (first [left; reflexivity|right]).
Defined.

Lemma completed_run_outputs_witness :
  let ev := snd (run_test rows2 false 1 gamma0) in
  In (Write (div out0 "commandline.json")
        (JsonFile [("output_dir", JPath out0); ("caps_dir", JPath caps0);
                   ("preprocessing", JStr "t1-linear")])) ev /\
  In (Mkdir (div out0 "subjects")) ev /\
  exists m, In (Write (div out0 "data.tsv") (TsvFile m)) ev /\
            In (Write (div out0 "missing_mods.tsv") (MissingModsFile m)) ev /\
            length (filter is_image_write ev) = length m.
Proof.
  apply (completed_run_outputs (test_env rows2 false) caps0 out0 1 None "t1-linear" false false
           "fdg" "pons" gamma0 []).
  vm_compute; reflexivity.
Defined.


Lemma contrast_filename_second_field_witness :
  exists caps_dir found image_file subject_id img,
    Some caps0 = Some caps_dir /\
    test_reader false [] ["sub-a-b"] ["ses-M06"] caps_dir tt = inr found /\
    nth_error (fst found) 0 = Some image_file /\
    nth_error (split_on "-" "sub-a-b") 1 = Some subject_id /\
    let dir := div (div (div (div out0 "subjects") ("sub-CONT" ++ subject_id)%string)
                        "ses-M06") "t1-linear" in
    In (Write (div dir ("sub-CONT" ++ subject_id ++ "_" ++ "ses-M06" ++ "_"
                        ++ join "_" (skipn 2 (split_on "_"
                                       (name (Path_of_string image_file)))))%string)
              (NiftiFile img)) (snd (job_test gamma0 1)).
Proof.
  apply (contrast_filename_second_field (test_env rows2 false) out0 "t1-linear" gamma0
           (fun _ => Some caps0) rows2 tt 1 [] [] [mk_out_row "sub-CONTa" "ses-M06" "contrast"]
           (snd (job_test gamma0 1)) (mk_in_row "sub-a-b" "ses-M06" "single"));
    vm_compute; reflexivity.
Defined.


Lemma writes_stay_under_output_dir_witness :
  Forall (fun e => under out0 (event_path e) \/
                   exists q, e = Mkdir q /\ In q (ancestors out0))
         (snd (run_test rows2 false 1 gamma0)).
Proof.
  apply (writes_stay_under_output_dir (test_env rows2 false) caps0 out0 1 None "t1-linear"
           false false "fdg" "pons" gamma0 [] (fst (run_test rows2 false 1 gamma0)));
    [|vm_compute; reflexivity|vm_compute; reflexivity].
  intros cd df ft ev0 Hp; vm_compute in Hp; injection Hp as _ <- _ _.
  repeat constructor.
Defined.

(** C2 counterexample: for the row ["sub-a-b"], the spec's name keeps
    ["a-b"] after ["sub-CONT"], while the job writes ["sub-CONTa_..."]; no
    image of the run bears the spec's name. *)
Lemma contrast_filename_after_first_hyphen_cex :
  let ev := snd (run_test rows2 false 1 gamma0) in
  claimed_contrast_filename "sub-a-b" "ses-M06" "sub-a-b_ses-M06_T1w.nii.gz"
    = "sub-CONTa-b_ses-M06_T1w.nii.gz" /\
  In (Write (div (image_dir_a out0) "sub-CONTa_ses-M06_T1w.nii.gz")
            (NiftiFile ((-2 # 10)%Q, (-5 # 100)%Q))) ev /\
  (forall p img, In (Write p (NiftiFile img)) ev ->
                 name p <> claimed_contrast_filename "sub-a-b" "ses-M06"
                             "sub-a-b_ses-M06_T1w.nii.gz").
Proof.
  split; [vm_compute; reflexivity|split].
  - vm_compute; repeat (first [left; reflexivity|right]).
  - intros p img Hin; vm_compute in Hin.
    repeat (destruct Hin as [Hin|Hin];
            [first [discriminate|injection Hin as <- _; vm_compute; discriminate]|]).
    destruct Hin.
Qed.


(** C8 counterexample: with [output_dir] equal to [caps_directory], the run
    writes [data.tsv] (and its images) inside the CAPS directory. The
    proviso on path components is needed too: a session_id that is an
    absolute path ([rows_abs]) sends the image out of [output_dir], and so
    does an absolute [preprocessing]. *)
Lemma output_inside_caps_cex :
  let ev := snd (generate_contrast_dataset (test_env rows2 false) caps0 caps0 1 None
                   "t1-linear" false false "fdg" "pons" gamma0 []) in
  In (Write (div caps0 "data.tsv") (TsvFile manifest2)) ev /\
  In (Write (div (image_dir_a caps0) "sub-CONTa_ses-M06_T1w.nii.gz")
            (NiftiFile ((-2 # 10)%Q, (-5 # 100)%Q))) ev /\
  under caps0 (div caps0 "data.tsv") /\
  (exists p img, In (Write p (NiftiFile img)) (snd (run_test rows_abs false 1 gamma0)) /\
                 ~ under out0 p) /\
  (exists p img, In (Write p (NiftiFile img))
                   (snd (generate_contrast_dataset (test_env rows2 false) caps0 out0 1 None
                           "/elsewhere" false false "fdg" "pons" gamma0 [])) /\
                 ~ under out0 p).
Proof.
  split; [|split; [|split; [|split]]].
  - vm_compute; repeat (first [left; reflexivity|right]).
  - vm_compute; repeat (first [left; reflexivity|right]).
  - apply under_div; [apply under_refl|reflexivity].
  - do 2 eexists; split; [vm_compute; repeat (first [left; reflexivity|right])|].
    intros [_ (rest & Hp & _)]; vm_compute in Hp; discriminate.
  - do 2 eexists; split; [vm_compute; repeat (first [left; reflexivity|right])|].
    intros [_ (rest & Hp & _)]; vm_compute in Hp; discriminate.
Qed.


Lemma job_participant_without_hyphen_witness :
  create_contrast_image (test_env rows2 false) out0 "t1-linear" gamma0 (fun _ => Some caps0)
    [mk_in_row "sub01" "ses-M00" "single"] tt 0 [] [] = (inl IndexError, []).
Proof.
  apply (job_participant_without_hyphen (test_env rows2 false) out0 "t1-linear" gamma0
           (fun _ => Some caps0) [mk_in_row "sub01" "ses-M00" "single"] tt 0 [] []
           (mk_in_row "sub01" "ses-M00" "single") caps0
           "/data/caps/subjects/sub01/ses-M00/t1_linear/sub01_ses-M00_T1w.nii.gz" [] "");
    reflexivity.
Defined.

Lemma generate_contrast_dataset_always_raises_witness :
  (exists e, fst (run_test rows2 false 1 gamma0) = inl e) /\
  (forall p m, In (Write p (MissingModsFile m)) (snd (run_test rows2 false 1 gamma0)) ->
               fst (run_test rows2 false 1 gamma0) = inl (NameError "logger")).
Proof.
  apply (generate_contrast_dataset_always_raises (test_env rows2 false) caps0 out0 1 None
           "t1-linear" false false "fdg" "pons" gamma0 []).
  vm_compute; reflexivity.
Defined.

Lemma run_with_no_subjects_witness :
  (exists e, fst (run_test [] false 2 gamma0) = inl e) /\
  exists ev2, snd (run_test [] false 2 gamma0) = snd (prefix_test [] false) ++ ev2 /\
    (ev2 = [] \/
     exists rest, ev2 = Write (div out0 "data.tsv") (TsvFile []) :: rest /\
                  filter is_image_write rest = []).
Proof.
  apply (run_with_no_subjects (test_env [] false) caps0 out0 2 None "t1-linear" false false
           "fdg" "pons" gamma0 [] (fun _ => Some caps0) tt (snd (prefix_test [] false)));
    [vm_compute; reflexivity|lia|vm_compute; reflexivity].
Defined.

(** With gamma [[1/2]], the job of ["sub-01"] makes its directory and raises
    [IndexError]; the run raises, and after the setup it only makes the two
    image directories (with their ancestors). *)
Lemma run_with_short_gamma_witness :
  job_test [1 # 2]%Q 0 =
    (inl IndexError,
     map Mkdir (dir_chain (div (div (div (div out0 "subjects") "sub-CONT01") "ses-M00")
                               "t1-linear"))) /\
  (exists e, fst (run_test rows2 false 1 [1 # 2]%Q) = inl e) /\
  exists ev1, snd (run_test rows2 false 1 [1 # 2]%Q) = snd (prefix_test rows2 false) ++ ev1 /\
    Forall (fun x => exists row subject_id q,
                In row rows2 /\
                nth_error (split_on "-" (participant_id row)) 1 = Some subject_id /\
                x = Mkdir q /\
                In q (dir_chain (div (div (div (div out0 "subjects")
                                               ("sub-CONT" ++ subject_id)%string)
                                          (session_id row)) "t1-linear"))) ev1.
Proof.
  split; [vm_compute; reflexivity|].
  exact (proj2 (run_with_short_gamma (test_env rows2 false) caps0 out0 1 None "t1-linear"
                  false false "fdg" "pons" [1 # 2]%Q [] (fun _ => Some caps0) rows2 tt
                  (snd (prefix_test rows2 false)) (fst (run_test rows2 false 1 [1 # 2]%Q))
                  (snd (run_test rows2 false 1 [1 # 2]%Q))
                  ltac:(vm_compute; reflexivity) ltac:(discriminate) ltac:(simpl; lia)
                  ltac:(vm_compute; reflexivity))).
Defined.

Lemma run_depends_on_two_gamma_values_witness :
  run_test rows2 false 1 [1 # 10; 2 # 10]%Q = run_test rows2 false 1 [1 # 10; 2 # 10; 5 # 1]%Q.
Proof.
  apply (run_depends_on_two_gamma_values (test_env rows2 false) caps0 out0 1 None "t1-linear"
           false false "fdg" "pons" [1 # 10; 2 # 10]%Q [1 # 10; 2 # 10; 5 # 1]%Q []);
    reflexivity.
Defined.

Lemma jobs_collide_on_second_field_witness :
  [mk_out_row "sub-CONT01" "ses-M00" "contrast"] = [mk_out_row "sub-CONT01" "ses-M00" "contrast"] /\
  forall p1 img1 p2 img2,
    In (Write p1 (NiftiFile img1))
       (snd (create_contrast_image (test_env rows_dup false) out0 "t1-linear" gamma0
               (fun _ => Some caps0) rows_dup tt 0 [] [])) ->
    In (Write p2 (NiftiFile img2))
       (snd (create_contrast_image (test_env rows_dup false) out0 "t1-linear" gamma0
               (fun _ => Some caps0) rows_dup tt 1 [] [])) ->
    p1 = p2.
Proof.
  apply (jobs_collide_on_second_field (test_env rows_dup false) out0 "t1-linear" gamma0
           (fun _ => Some caps0) rows_dup tt 0 1 [] []
           [mk_out_row "sub-CONT01" "ses-M00" "contrast"]
           [mk_out_row "sub-CONT01" "ses-M00" "contrast"]
           (snd (create_contrast_image (test_env rows_dup false) out0 "t1-linear" gamma0
                   (fun _ => Some caps0) rows_dup tt 0 [] []))
           (snd (create_contrast_image (test_env rows_dup false) out0 "t1-linear" gamma0
                   (fun _ => Some caps0) rows_dup tt 1 [] []))
           (mk_in_row "sub-01-a" "ses-M00" "single") (mk_in_row "sub-01-b" "ses-M00" "single")
           caps0 caps0
           "/data/caps/subjects/sub-01-a/ses-M00/t1_linear/sub-01-a_ses-M00_T1w.nii.gz" [] ""
           "/data/caps/subjects/sub-01-b/ses-M00/t1_linear/sub-01-b_ses-M00_T1w.nii.gz" [] "");
    vm_compute; reflexivity.
Defined.
